(** * Stacks Boost lending pool: a shallow embedding of the Clarity contract

    The lending pool (deposit-stx, withdraw-stx, borrow-stx, repay,
    liquidate, the admin entry points and the private accrual helpers)
    and the mock sBTC token it calls are embedded as functions in a
    state-and-error monad over the chain state.  Clarity [uint] values are
    128-bit naturals: arithmetic that leaves the range is a runtime error
    that aborts the transaction, it never wraps around. *)

From Stdlib Require Import NArith Lia.
From stdpp Require Import base gmap strings fin_maps.
From Stdlib Require Import Ascii.
From stdpp Require Import pretty.

Open Scope N_scope.

(** ** Data model *)

(** A principal is an account or contract address. *)
Abbreviation principal := string.

(** Largest value of a Clarity [uint]. *)
Definition UINT_MAX : N := 2 ^ 128 - 1.

(** A Clarity response value. *)
Inductive response (A : Type) : Type :=
| ok (a : A)
| err (e : N).
Arguments ok {A} a.
Arguments err {A} e.

(** Value of the [deposits] map: { amount: uint, yield-index: uint }. *)
Record deposit_entry : Type := mk_deposit
  { d_amount : N; d_yield_index : N }.

(** Value of the [borrows] map: { amount: uint, last-accrued: uint }. *)
Record borrow_entry : Type := mk_borrow
  { b_amount : N; b_last_accrued : N }.

(** The data variables and maps of the lending pool.  The [collateral]
    map has the one-field value { amount: uint }, kept here as the
    amount itself; every map is keyed by { user: principal }. *)
Record pool : Type := mk_pool
  { total_sbtc_collateral : N;
    total_stx_deposits : N;
    total_stx_borrows : N;
    last_interest_accrual : N;
    cumulative_yield_bips : N;
    admin : principal;
    paused : bool;
    ltv_percentage : N;
    interest_rate_percentage : N;
    liquidation_threshold_percentage : N;
    liquidation_penalty_percentage : N;
    sbtc_token : principal;
    collateral : gmap string N;
    deposits : gmap string deposit_entry;
    borrows : gmap string borrow_entry }.

(** What the pool sees of the rest of the chain: STX balances, the
    balances of the fungible token [sbtc] of the mock token contract, and
    the reply of the price oracle.  The oracle contract (.mock-oracle-v2)
    is not part of the sources; its reply to [get-price] is an input. *)
Record chain : Type := mk_chain
  { stx_balances : gmap string N;
    sbtc_balances : gmap string N;
    oracle_reply : response N }.

Record world : Type := mk_world
  { pool_of : pool; chain_of : chain }.

(** *** var-set, one per data variable or map *)

Definition put_total_sbtc_collateral (v : N) (p : pool) : pool :=
  {| total_sbtc_collateral := v; total_stx_deposits := total_stx_deposits p;
     total_stx_borrows := total_stx_borrows p;
     last_interest_accrual := last_interest_accrual p;
     cumulative_yield_bips := cumulative_yield_bips p; admin := admin p;
     paused := paused p; ltv_percentage := ltv_percentage p;
     interest_rate_percentage := interest_rate_percentage p;
     liquidation_threshold_percentage := liquidation_threshold_percentage p;
     liquidation_penalty_percentage := liquidation_penalty_percentage p;
     sbtc_token := sbtc_token p; collateral := collateral p;
     deposits := deposits p; borrows := borrows p |}.

Definition put_total_stx_deposits (v : N) (p : pool) : pool :=
  {| total_sbtc_collateral := total_sbtc_collateral p;
     total_stx_deposits := v; total_stx_borrows := total_stx_borrows p;
     last_interest_accrual := last_interest_accrual p;
     cumulative_yield_bips := cumulative_yield_bips p; admin := admin p;
     paused := paused p; ltv_percentage := ltv_percentage p;
     interest_rate_percentage := interest_rate_percentage p;
     liquidation_threshold_percentage := liquidation_threshold_percentage p;
     liquidation_penalty_percentage := liquidation_penalty_percentage p;
     sbtc_token := sbtc_token p; collateral := collateral p;
     deposits := deposits p; borrows := borrows p |}.

Definition put_total_stx_borrows (v : N) (p : pool) : pool :=
  {| total_sbtc_collateral := total_sbtc_collateral p;
     total_stx_deposits := total_stx_deposits p; total_stx_borrows := v;
     last_interest_accrual := last_interest_accrual p;
     cumulative_yield_bips := cumulative_yield_bips p; admin := admin p;
     paused := paused p; ltv_percentage := ltv_percentage p;
     interest_rate_percentage := interest_rate_percentage p;
     liquidation_threshold_percentage := liquidation_threshold_percentage p;
     liquidation_penalty_percentage := liquidation_penalty_percentage p;
     sbtc_token := sbtc_token p; collateral := collateral p;
     deposits := deposits p; borrows := borrows p |}.

Definition put_last_interest_accrual (v : N) (p : pool) : pool :=
  {| total_sbtc_collateral := total_sbtc_collateral p;
     total_stx_deposits := total_stx_deposits p;
     total_stx_borrows := total_stx_borrows p; last_interest_accrual := v;
     cumulative_yield_bips := cumulative_yield_bips p; admin := admin p;
     paused := paused p; ltv_percentage := ltv_percentage p;
     interest_rate_percentage := interest_rate_percentage p;
     liquidation_threshold_percentage := liquidation_threshold_percentage p;
     liquidation_penalty_percentage := liquidation_penalty_percentage p;
     sbtc_token := sbtc_token p; collateral := collateral p;
     deposits := deposits p; borrows := borrows p |}.

Definition put_cumulative_yield_bips (v : N) (p : pool) : pool :=
  {| total_sbtc_collateral := total_sbtc_collateral p;
     total_stx_deposits := total_stx_deposits p;
     total_stx_borrows := total_stx_borrows p;
     last_interest_accrual := last_interest_accrual p;
     cumulative_yield_bips := v; admin := admin p; paused := paused p;
     ltv_percentage := ltv_percentage p;
     interest_rate_percentage := interest_rate_percentage p;
     liquidation_threshold_percentage := liquidation_threshold_percentage p;
     liquidation_penalty_percentage := liquidation_penalty_percentage p;
     sbtc_token := sbtc_token p; collateral := collateral p;
     deposits := deposits p; borrows := borrows p |}.

Definition put_admin (v : principal) (p : pool) : pool :=
  {| total_sbtc_collateral := total_sbtc_collateral p;
     total_stx_deposits := total_stx_deposits p;
     total_stx_borrows := total_stx_borrows p;
     last_interest_accrual := last_interest_accrual p;
     cumulative_yield_bips := cumulative_yield_bips p; admin := v;
     paused := paused p; ltv_percentage := ltv_percentage p;
     interest_rate_percentage := interest_rate_percentage p;
     liquidation_threshold_percentage := liquidation_threshold_percentage p;
     liquidation_penalty_percentage := liquidation_penalty_percentage p;
     sbtc_token := sbtc_token p; collateral := collateral p;
     deposits := deposits p; borrows := borrows p |}.

Definition put_paused (v : bool) (p : pool) : pool :=
  {| total_sbtc_collateral := total_sbtc_collateral p;
     total_stx_deposits := total_stx_deposits p;
     total_stx_borrows := total_stx_borrows p;
     last_interest_accrual := last_interest_accrual p;
     cumulative_yield_bips := cumulative_yield_bips p; admin := admin p;
     paused := v; ltv_percentage := ltv_percentage p;
     interest_rate_percentage := interest_rate_percentage p;
     liquidation_threshold_percentage := liquidation_threshold_percentage p;
     liquidation_penalty_percentage := liquidation_penalty_percentage p;
     sbtc_token := sbtc_token p; collateral := collateral p;
     deposits := deposits p; borrows := borrows p |}.

Definition put_ltv_percentage (v : N) (p : pool) : pool :=
  {| total_sbtc_collateral := total_sbtc_collateral p;
     total_stx_deposits := total_stx_deposits p;
     total_stx_borrows := total_stx_borrows p;
     last_interest_accrual := last_interest_accrual p;
     cumulative_yield_bips := cumulative_yield_bips p; admin := admin p;
     paused := paused p; ltv_percentage := v;
     interest_rate_percentage := interest_rate_percentage p;
     liquidation_threshold_percentage := liquidation_threshold_percentage p;
     liquidation_penalty_percentage := liquidation_penalty_percentage p;
     sbtc_token := sbtc_token p; collateral := collateral p;
     deposits := deposits p; borrows := borrows p |}.

Definition put_interest_rate_percentage (v : N) (p : pool) : pool :=
  {| total_sbtc_collateral := total_sbtc_collateral p;
     total_stx_deposits := total_stx_deposits p;
     total_stx_borrows := total_stx_borrows p;
     last_interest_accrual := last_interest_accrual p;
     cumulative_yield_bips := cumulative_yield_bips p; admin := admin p;
     paused := paused p; ltv_percentage := ltv_percentage p;
     interest_rate_percentage := v;
     liquidation_threshold_percentage := liquidation_threshold_percentage p;
     liquidation_penalty_percentage := liquidation_penalty_percentage p;
     sbtc_token := sbtc_token p; collateral := collateral p;
     deposits := deposits p; borrows := borrows p |}.

Definition put_liquidation_threshold_percentage (v : N) (p : pool) : pool :=
  {| total_sbtc_collateral := total_sbtc_collateral p;
     total_stx_deposits := total_stx_deposits p;
     total_stx_borrows := total_stx_borrows p;
     last_interest_accrual := last_interest_accrual p;
     cumulative_yield_bips := cumulative_yield_bips p; admin := admin p;
     paused := paused p; ltv_percentage := ltv_percentage p;
     interest_rate_percentage := interest_rate_percentage p;
     liquidation_threshold_percentage := v;
     liquidation_penalty_percentage := liquidation_penalty_percentage p;
     sbtc_token := sbtc_token p; collateral := collateral p;
     deposits := deposits p; borrows := borrows p |}.

Definition put_liquidation_penalty_percentage (v : N) (p : pool) : pool :=
  {| total_sbtc_collateral := total_sbtc_collateral p;
     total_stx_deposits := total_stx_deposits p;
     total_stx_borrows := total_stx_borrows p;
     last_interest_accrual := last_interest_accrual p;
     cumulative_yield_bips := cumulative_yield_bips p; admin := admin p;
     paused := paused p; ltv_percentage := ltv_percentage p;
     interest_rate_percentage := interest_rate_percentage p;
     liquidation_threshold_percentage := liquidation_threshold_percentage p;
     liquidation_penalty_percentage := v; sbtc_token := sbtc_token p;
     collateral := collateral p; deposits := deposits p;
     borrows := borrows p |}.

Definition put_sbtc_token (v : principal) (p : pool) : pool :=
  {| total_sbtc_collateral := total_sbtc_collateral p;
     total_stx_deposits := total_stx_deposits p;
     total_stx_borrows := total_stx_borrows p;
     last_interest_accrual := last_interest_accrual p;
     cumulative_yield_bips := cumulative_yield_bips p; admin := admin p;
     paused := paused p; ltv_percentage := ltv_percentage p;
     interest_rate_percentage := interest_rate_percentage p;
     liquidation_threshold_percentage := liquidation_threshold_percentage p;
     liquidation_penalty_percentage := liquidation_penalty_percentage p;
     sbtc_token := v; collateral := collateral p; deposits := deposits p;
     borrows := borrows p |}.

Definition put_collateral (v : gmap string N) (p : pool) : pool :=
  {| total_sbtc_collateral := total_sbtc_collateral p;
     total_stx_deposits := total_stx_deposits p;
     total_stx_borrows := total_stx_borrows p;
     last_interest_accrual := last_interest_accrual p;
     cumulative_yield_bips := cumulative_yield_bips p; admin := admin p;
     paused := paused p; ltv_percentage := ltv_percentage p;
     interest_rate_percentage := interest_rate_percentage p;
     liquidation_threshold_percentage := liquidation_threshold_percentage p;
     liquidation_penalty_percentage := liquidation_penalty_percentage p;
     sbtc_token := sbtc_token p; collateral := v; deposits := deposits p;
     borrows := borrows p |}.

Definition put_deposits (v : gmap string deposit_entry) (p : pool) : pool :=
  {| total_sbtc_collateral := total_sbtc_collateral p;
     total_stx_deposits := total_stx_deposits p;
     total_stx_borrows := total_stx_borrows p;
     last_interest_accrual := last_interest_accrual p;
     cumulative_yield_bips := cumulative_yield_bips p; admin := admin p;
     paused := paused p; ltv_percentage := ltv_percentage p;
     interest_rate_percentage := interest_rate_percentage p;
     liquidation_threshold_percentage := liquidation_threshold_percentage p;
     liquidation_penalty_percentage := liquidation_penalty_percentage p;
     sbtc_token := sbtc_token p; collateral := collateral p; deposits := v;
     borrows := borrows p |}.

Definition put_borrows (v : gmap string borrow_entry) (p : pool) : pool :=
  {| total_sbtc_collateral := total_sbtc_collateral p;
     total_stx_deposits := total_stx_deposits p;
     total_stx_borrows := total_stx_borrows p;
     last_interest_accrual := last_interest_accrual p;
     cumulative_yield_bips := cumulative_yield_bips p; admin := admin p;
     paused := paused p; ltv_percentage := ltv_percentage p;
     interest_rate_percentage := interest_rate_percentage p;
     liquidation_threshold_percentage := liquidation_threshold_percentage p;
     liquidation_penalty_percentage := liquidation_penalty_percentage p;
     sbtc_token := sbtc_token p; collateral := collateral p;
     deposits := deposits p; borrows := v |}.

Definition with_pool (f : pool -> pool) (w : world) : world :=
  {| pool_of := f (pool_of w); chain_of := chain_of w |}.

Definition put_stx_balances (v : gmap string N) (w : world) : world :=
  {| pool_of := pool_of w;
     chain_of := {| stx_balances := v;
                    sbtc_balances := sbtc_balances (chain_of w);
                    oracle_reply := oracle_reply (chain_of w) |} |}.

Definition put_sbtc_balances (v : gmap string N) (w : world) : world :=
  {| pool_of := pool_of w;
     chain_of := {| stx_balances := stx_balances (chain_of w);
                    sbtc_balances := v;
                    oracle_reply := oracle_reply (chain_of w) |} |}.

(** A principal without an entry holds nothing. *)
Definition balance (m : gmap string N) (who : principal) : N :=
  default 0 (m !! who).

(** ** The execution monad

    A computation either finishes with a value, leaves early with an
    error response (asserts!, unwrap!, try!), or hits a runtime error
    (unwrap-panic on an error, arithmetic outside [uint], division by
    zero).  [Err] keeps the state reached when the error was raised; what
    a caller observes of it is decided by [execute] below. *)
Inductive outcome (A : Type) : Type :=
| Ok (a : A) (w : world)
| Err (e : N) (w : world)
| Panic.
Arguments Ok {A} a w.
Arguments Err {A} e w.
Arguments Panic {A}.

Definition M (A : Type) : Type := world -> outcome A.

Definition ret {A} (a : A) : M A := fun w => Ok a w.

Definition bind {A B} (m : M A) (k : A -> M B) : M B :=
  fun w =>
    match m w with
    | Ok a w' => k a w'
    | Err e w' => Err e w'
    | Panic => Panic
    end.

Declare Scope clarity_scope.
Delimit Scope clarity_scope with clarity.
Notation "x <- m ;; k" := (bind m (fun x => k))
  (at level 100, m at next level, right associativity) : clarity_scope.
Notation "m ;; k" := (bind m (fun _ => k))
  (at level 100, right associativity) : clarity_scope.
Open Scope clarity_scope.

Definition throw {A} (e : N) : M A := fun w => Err e w.
Definition panic {A} : M A := fun _ => Panic.

Definition var_get {A} (f : pool -> A) : M A :=
  fun w => Ok (f (pool_of w)) w.

Definition var_set (f : pool -> pool) : M unit :=
  fun w => Ok tt (with_pool f w).

(** (asserts! b e) *)
Definition asserts (b : bool) (e : N) : M unit :=
  if b then ret tt else throw e.

(** (unwrap! m e): an error reply of [m] leaves with [e] instead. *)
Definition unwrap {A} (m : M A) (e : N) : M A :=
  fun w =>
    match m w with
    | Ok a w' => Ok a w'
    | Err _ w' => Err e w'
    | Panic => Panic
    end.

(** (unwrap-panic m) *)
Definition unwrap_panic {A} (m : M A) : M A :=
  fun w =>
    match m w with
    | Ok a w' => Ok a w'
    | Err _ _ => Panic
    | Panic => Panic
    end.

(** (unwrap! o e) on an optional value. *)
Definition unwrap_some {A} (o : option A) (e : N) : M A :=
  match o with
  | Some a => ret a
  | None => throw e
  end.

(** *** Checked [uint] arithmetic *)

Definition uadd (a b : N) : M N :=
  if a + b <=? UINT_MAX then ret (a + b) else panic.

Definition usub (a b : N) : M N :=
  if b <=? a then ret (a - b) else panic.

Definition umul (a b : N) : M N :=
  if a * b <=? UINT_MAX then ret (a * b) else panic.

Definition udiv (a b : N) : M N :=
  if b =? 0 then panic else ret (a / b).

(** ** Chain primitives *)

(** The pool contract's own principal, (as-contract tx-sender). *)
Definition contract_principal : principal := "stackslend-v2".

Definition stx_get_balance (who : principal) : M N :=
  fun w => Ok (balance (stx_balances (chain_of w)) who) w.

(** Balances after [amount] has gone from [sender] to [recipient].  The
    token supplies are themselves [uint] values, so a credit stays in
    range. *)
Definition move (amount : N) (sender recipient : principal)
    (m : gmap string N) : gmap string N :=
  <[recipient := balance m recipient + amount]>
    (<[sender := balance m sender - amount]> m).

(** (stx-transfer? amount sender recipient) evaluated with the given
    tx-sender; the error codes are those of the built-in. *)
Definition stx_transfer (tx_sender : principal) (amount : N)
    (sender recipient : principal) : M bool :=
  fun w =>
    if amount =? 0 then Err 3 w
    else if bool_decide (sender = recipient) then Err 2 w
    else if negb (bool_decide (sender = tx_sender)) then Err 4 w
    else if balance (stx_balances (chain_of w)) sender <? amount then Err 1 w
    else Ok true
           (put_stx_balances
              (move amount sender recipient (stx_balances (chain_of w))) w).

(** ** Mock sBTC token (SIP-010), the part the pool calls *)
Module MockSbtc.

Definition ERR_UNAUTHORIZED : N := 100.

(** (ft-transfer? sbtc amount sender recipient) *)
Definition ft_transfer (amount : N) (sender recipient : principal)
    : M bool :=
  fun w =>
    if amount =? 0 then Err 3 w
    else if bool_decide (sender = recipient) then Err 2 w
    else if balance (sbtc_balances (chain_of w)) sender <? amount
    then Err 1 w
    else Ok true
           (put_sbtc_balances
              (move amount sender recipient (sbtc_balances (chain_of w)))
              w).

Definition transfer (tx_sender : principal) (amount : N)
    (sender recipient : principal) : M bool :=
  asserts (bool_decide (sender = tx_sender)) ERR_UNAUTHORIZED ;;
  ft_transfer amount sender recipient ;;
  ret true.

End MockSbtc.

(** ** The lending pool contract *)

(** *** Error constants *)
Definition ERR_INVALID_WITHDRAW_AMOUNT : N := 100.
Definition ERR_EXCEEDED_MAX_BORROW : N := 101.
Definition ERR_CANNOT_BE_LIQUIDATED : N := 102.
Definition ERR_INVALID_ORACLE : N := 104.
Definition ERR_INVALID_SBTC_CONTRACT : N := 105.
Definition ERR_INVALID_DEX_CONTRACT : N := 106.
Definition ERR_UNAUTHORIZED : N := 107.
Definition ERR_PAUSED : N := 108.
Definition ERR_INVALID_BORROW_AMOUNT : N := 109.
Definition ERR_INVALID_LIQUIDATION : N := 110.
Definition ERR_INVALID_DEPOSIT_AMOUNT : N := 111.
Definition ERR_INSUFFICIENT_LIQUIDITY : N := 112.
Definition ERR_INVALID_PRICE : N := 113.

(** *** Protocol constants *)
Definition LTV_PERCENTAGE : N := 70.
Definition INTEREST_RATE_PERCENTAGE : N := 10.
Definition LIQUIDATION_THRESHOLD_PERCENTAGE : N := 100.
Definition LIQUIDATION_PENALTY_PERCENTAGE : N := 10.
Definition ONE_YEAR_IN_SECS : N := 31556952.
Definition DEFAULT_ADMIN : principal :=
  "SP1G4ZDXED8XM2XJ4Q4GJ7F4PG4EJQ1KKXRCD0S3K".
Definition DEFAULT_SBTC_TOKEN : principal := "mock-sbtc-token-v2".

(** The state right after deployment: the define-data-var initial values
    and empty maps. *)
Definition initial_pool : pool :=
  {| total_sbtc_collateral := 0;
     total_stx_deposits := 0;
     total_stx_borrows := 0;
     last_interest_accrual := 0;
     cumulative_yield_bips := 0;
     admin := DEFAULT_ADMIN;
     paused := false;
     ltv_percentage := LTV_PERCENTAGE;
     interest_rate_percentage := INTEREST_RATE_PERCENTAGE;
     liquidation_threshold_percentage := LIQUIDATION_THRESHOLD_PERCENTAGE;
     liquidation_penalty_percentage := LIQUIDATION_PENALTY_PERCENTAGE;
     sbtc_token := DEFAULT_SBTC_TOKEN;
     collateral := ∅;
     deposits := ∅;
     borrows := ∅ |}.

(** *** Private functions *)

Definition get_contract_balance : M N :=
  stx_get_balance contract_principal.

(** (define-private (get-current-time) u0) *)
Definition get_current_time : N := 0.

(** accrue-interest opens with (let ((current-time (get-current-time)) ...)
    and never reads the clock again: [accrue_interest_at] is what follows
    as a function of the bound [current-time], and [accrue_interest]
    binds it to (get-current-time). *)
Definition accrue_interest_at (current_time : N) : M bool :=
  last_accrual <- var_get last_interest_accrual ;;
  if last_accrual =? 0 then
    var_set (put_last_interest_accrual current_time) ;;
    ret true
  else
    dt <- usub current_time last_accrual ;;
    if 0 <? dt then
      total_borrows <- var_get total_stx_borrows ;;
      rate <- var_get interest_rate_percentage ;;
      borrows_rate <- umul total_borrows rate ;;
      interest_numerator <- umul borrows_rate dt ;;
      interest_denominator <- umul ONE_YEAR_IN_SECS 100 ;;
      interest <- udiv interest_numerator interest_denominator ;;
      total_deposits <- var_get total_stx_deposits ;;
      new_yield <-
        (if 0 <? total_deposits then
           scaled <- umul interest 10000 ;;
           udiv scaled total_deposits
         else ret 0) ;;
      var_set (put_last_interest_accrual current_time) ;;
      new_borrows <- uadd total_borrows interest ;;
      var_set (put_total_stx_borrows new_borrows) ;;
      yield_bips <- var_get cumulative_yield_bips ;;
      new_bips <- uadd yield_bips new_yield ;;
      var_set (put_cumulative_yield_bips new_bips) ;;
      ret true
    else ret true.

Definition accrue_interest : M bool :=
  accrue_interest_at get_current_time.

(** calculate-interest, in the same way: its body as a function of the
    [current-time] it binds first. *)
Definition calculate_interest_at (current_time : N)
    (principal_amount last_accrued : N) : M N :=
  dt <- usub current_time last_accrued ;;
  if 0 <? dt then
    rate <- var_get interest_rate_percentage ;;
    rate_dt <- umul rate dt ;;
    numerator <- umul principal_amount rate_dt ;;
    denominator <- umul ONE_YEAR_IN_SECS 100 ;;
    udiv numerator denominator
  else ret 0.

Definition calculate_interest (principal_amount last_accrued : N) : M N :=
  calculate_interest_at get_current_time principal_amount last_accrued.

(** *** Read-only functions *)

Definition get_pending_yield (user : principal) : M N :=
  deposit <- var_get (fun p => deposits p !! user) ;;
  let amount_stx := default 0 (d_amount <$> deposit) in
  let yield_index := default 0 (d_yield_index <$> deposit) in
  bips <- var_get cumulative_yield_bips ;;
  delta <- usub bips yield_index ;;
  scaled <- umul amount_stx delta ;;
  udiv scaled 10000.

Definition get_debt (user : principal) : M N :=
  borrow <- var_get (fun p => borrows p !! user) ;;
  let amount := default 0 (b_amount <$> borrow) in
  let last_accrued := default get_current_time (b_last_accrued <$> borrow) in
  interest <- unwrap_panic (calculate_interest amount last_accrued) ;;
  uadd amount interest.

Definition get_collateral (user : principal) : M N :=
  entry <- var_get (fun p => collateral p !! user) ;;
  ret (default 0 entry).

(** *** Public functions *)

(** (contract-call? .mock-oracle-v2 get-price) *)
Definition get_sbtc_stx_price : M N :=
  fun w =>
    match oracle_reply (chain_of w) with
    | ok price => Ok price w
    | err e => Err e w
    end.

Definition deposit_stx (tx_sender : principal) (amount : N) : M bool :=
  existing <- var_get (fun p => deposits p !! tx_sender) ;;
  let deposited_stx := default 0 (d_amount <$> existing) in
  is_paused <- var_get paused ;;
  asserts (negb is_paused) ERR_PAUSED ;;
  asserts (0 <? amount) ERR_INVALID_DEPOSIT_AMOUNT ;;
  unwrap_panic accrue_interest ;;
  unwrap (stx_transfer tx_sender amount tx_sender contract_principal) 1 ;;
  new_amount <- uadd deposited_stx amount ;;
  bips <- var_get cumulative_yield_bips ;;
  var_set (fun p =>
    put_deposits (<[tx_sender := mk_deposit new_amount bips]> (deposits p)) p) ;;
  total <- var_get total_stx_deposits ;;
  new_total <- uadd total amount ;;
  var_set (put_total_stx_deposits new_total) ;;
  ret true.

Definition withdraw_stx (tx_sender : principal) (amount : N) : M bool :=
  existing <- var_get (fun p => deposits p !! tx_sender) ;;
  deposit <- unwrap_some existing ERR_INVALID_WITHDRAW_AMOUNT ;;
  let deposited_stx := d_amount deposit in
  let caller := tx_sender in
  is_paused <- var_get paused ;;
  asserts (negb is_paused) ERR_PAUSED ;;
  asserts (0 <? amount) ERR_INVALID_WITHDRAW_AMOUNT ;;
  asserts (amount <=? deposited_stx) ERR_INVALID_WITHDRAW_AMOUNT ;;
  unwrap_panic accrue_interest ;;
  pending_yield <- unwrap_panic (get_pending_yield tx_sender) ;;
  new_amount <- usub deposited_stx amount ;;
  (if new_amount =? 0 then
     var_set (fun p => put_deposits (delete tx_sender (deposits p)) p)
   else
     bips <- var_get cumulative_yield_bips ;;
     var_set (fun p =>
       put_deposits
         (<[tx_sender := mk_deposit new_amount bips]> (deposits p)) p)) ;;
  total <- var_get total_stx_deposits ;;
  new_total <- usub total amount ;;
  var_set (put_total_stx_deposits new_total) ;;
  held <- get_contract_balance ;;
  payout <- uadd amount pending_yield ;;
  asserts (payout <=? held) ERR_INSUFFICIENT_LIQUIDITY ;;
  payout' <- uadd amount pending_yield ;;
  unwrap
    (stx_transfer contract_principal payout' contract_principal caller) 1 ;;
  ret true.

Definition borrow_stx (tx_sender : principal)
    (collateral_amount amount_stx : N) : M bool :=
  existing_borrow <- var_get (fun p => borrows p !! tx_sender) ;;
  existing_collateral <- var_get (fun p => collateral p !! tx_sender) ;;
  let caller := tx_sender in
  is_paused <- var_get paused ;;
  asserts (negb is_paused) ERR_PAUSED ;;
  asserts (0 <? amount_stx) ERR_INVALID_BORROW_AMOUNT ;;
  asserts ((0 <? collateral_amount) || (0 <? default 0 existing_collateral))
    ERR_EXCEEDED_MAX_BORROW ;;
  unwrap_panic accrue_interest ;;
  let existing_collateral_amount := default 0 existing_collateral in
  total_collateral <- uadd existing_collateral_amount collateral_amount ;;
  price <- unwrap_panic get_sbtc_stx_price ;;
  let collateral_value := total_collateral in
  value_stx <- umul collateral_value price ;;
  ltv <- var_get ltv_percentage ;;
  value_ltv <- umul value_stx ltv ;;
  max_borrow <- udiv value_ltv 100 ;;
  let current_borrow := default 0 (b_amount <$> existing_borrow) in
  let last_accrued :=
    default get_current_time (b_last_accrued <$> existing_borrow) in
  interest <- unwrap_panic (calculate_interest current_borrow last_accrued) ;;
  owed <- uadd current_borrow interest ;;
  new_borrow <- uadd owed amount_stx ;;
  asserts (0 <? price) ERR_INVALID_PRICE ;;
  asserts (new_borrow <=? max_borrow) ERR_EXCEEDED_MAX_BORROW ;;
  held <- get_contract_balance ;;
  asserts (amount_stx <=? held) ERR_INSUFFICIENT_LIQUIDITY ;;
  (if 0 <? collateral_amount then
     unwrap
       (MockSbtc.transfer tx_sender collateral_amount tx_sender
          contract_principal)
       ERR_INVALID_SBTC_CONTRACT
   else ret true) ;;
  unwrap
    (stx_transfer contract_principal amount_stx contract_principal caller)
    1 ;;
  var_set (fun p =>
    put_collateral (<[tx_sender := total_collateral]> (collateral p)) p) ;;
  var_set (fun p =>
    put_borrows
      (<[tx_sender := mk_borrow new_borrow get_current_time]> (borrows p))
      p) ;;
  total <- var_get total_stx_borrows ;;
  new_total <- uadd total amount_stx ;;
  var_set (put_total_stx_borrows new_total) ;;
  (if 0 <? collateral_amount then
     held_collateral <- var_get total_sbtc_collateral ;;
     new_collateral <- uadd held_collateral collateral_amount ;;
     var_set (put_total_sbtc_collateral new_collateral)
   else ret tt) ;;
  ret true.

Definition repay (tx_sender : principal) : M bool :=
  existing <- var_get (fun p => borrows p !! tx_sender) ;;
  borrow <- unwrap_some existing ERR_INVALID_WITHDRAW_AMOUNT ;;
  let borrowed := b_amount borrow in
  let last_accrued := b_last_accrued borrow in
  collateral_entry <- var_get (fun p => collateral p !! tx_sender) ;;
  let collateral_amount := default 0 collateral_entry in
  let caller := tx_sender in
  is_paused <- var_get paused ;;
  asserts (negb is_paused) ERR_PAUSED ;;
  asserts (0 <? borrowed) ERR_INVALID_WITHDRAW_AMOUNT ;;
  interest <- unwrap_panic (calculate_interest borrowed last_accrued) ;;
  total_owed <- uadd borrowed interest ;;
  unwrap (stx_transfer tx_sender total_owed tx_sender contract_principal) 1 ;;
  (if 0 <? collateral_amount then
     unwrap
       (MockSbtc.transfer contract_principal collateral_amount
          contract_principal caller)
       ERR_INVALID_SBTC_CONTRACT
   else ret true) ;;
  var_set (fun p => put_borrows (delete tx_sender (borrows p)) p) ;;
  var_set (fun p => put_collateral (delete tx_sender (collateral p)) p) ;;
  total <- var_get total_stx_borrows ;;
  new_total <- usub total total_owed ;;
  var_set (put_total_stx_borrows new_total) ;;
  held_collateral <- var_get total_sbtc_collateral ;;
  new_collateral <- usub held_collateral collateral_amount ;;
  var_set (put_total_sbtc_collateral new_collateral) ;;
  ret true.

Definition liquidate (tx_sender : principal) (user : principal) : M bool :=
  existing <- var_get (fun p => borrows p !! user) ;;
  borrow <- unwrap_some existing ERR_CANNOT_BE_LIQUIDATED ;;
  let borrowed := b_amount borrow in
  let last_accrued := b_last_accrued borrow in
  collateral_entry <- var_get (fun p => collateral p !! user) ;;
  collateral_amount <- unwrap_some collateral_entry ERR_CANNOT_BE_LIQUIDATED ;;
  let liquidator := tx_sender in
  is_paused <- var_get paused ;;
  asserts (negb is_paused) ERR_PAUSED ;;
  interest <- unwrap_panic (calculate_interest borrowed last_accrued) ;;
  total_owed <- uadd borrowed interest ;;
  price <- unwrap_panic get_sbtc_stx_price ;;
  collateral_value <- umul collateral_amount price ;;
  threshold <- var_get liquidation_threshold_percentage ;;
  penalty <- var_get liquidation_penalty_percentage ;;
  asserts (0 <? price) ERR_INVALID_PRICE ;;
  owed_scaled <- umul total_owed 100 ;;
  value_scaled <- umul collateral_value threshold ;;
  asserts (value_scaled <=? owed_scaled) ERR_CANNOT_BE_LIQUIDATED ;;
  keep <- usub 100 penalty ;;
  owed_kept <- umul total_owed keep ;;
  repay_amount <- udiv owed_kept 100 ;;
  unwrap (stx_transfer tx_sender repay_amount tx_sender contract_principal)
    1 ;;
  unwrap
    (MockSbtc.transfer contract_principal collateral_amount
       contract_principal liquidator)
    ERR_INVALID_SBTC_CONTRACT ;;
  var_set (fun p => put_borrows (delete user (borrows p)) p) ;;
  var_set (fun p => put_collateral (delete user (collateral p)) p) ;;
  total <- var_get total_stx_borrows ;;
  new_total <- usub total total_owed ;;
  var_set (put_total_stx_borrows new_total) ;;
  held_collateral <- var_get total_sbtc_collateral ;;
  new_collateral <- usub held_collateral collateral_amount ;;
  var_set (put_total_sbtc_collateral new_collateral) ;;
  ret true.

(** *** Admin functions *)

Definition set_paused (tx_sender : principal) (paused_value : bool)
    : M bool :=
  current_admin <- var_get admin ;;
  asserts (bool_decide (tx_sender = current_admin)) ERR_UNAUTHORIZED ;;
  var_set (put_paused paused_value) ;;
  ret true.

Definition set_admin (tx_sender : principal) (new_admin : principal)
    : M bool :=
  current_admin <- var_get admin ;;
  asserts (bool_decide (tx_sender = current_admin)) ERR_UNAUTHORIZED ;;
  var_set (put_admin new_admin) ;;
  ret true.

Definition set_params (tx_sender : principal)
    (new_ltv new_interest new_threshold new_penalty : N) : M bool :=
  current_admin <- var_get admin ;;
  asserts (bool_decide (tx_sender = current_admin)) ERR_UNAUTHORIZED ;;
  asserts (new_ltv <=? 90) ERR_INVALID_LIQUIDATION ;;
  asserts (new_interest <=? 100) ERR_INVALID_LIQUIDATION ;;
  asserts (new_threshold <=? 150) ERR_INVALID_LIQUIDATION ;;
  asserts (new_penalty <=? 30) ERR_INVALID_LIQUIDATION ;;
  var_set (put_ltv_percentage new_ltv) ;;
  var_set (put_interest_rate_percentage new_interest) ;;
  var_set (put_liquidation_threshold_percentage new_threshold) ;;
  var_set (put_liquidation_penalty_percentage new_penalty) ;;
  ret true.

Definition set_sbtc_token (tx_sender : principal) (new_token : principal)
    : M bool :=
  current_admin <- var_get admin ;;
  asserts (bool_decide (tx_sender = current_admin)) ERR_UNAUTHORIZED ;;
  var_set (put_sbtc_token new_token) ;;
  ret true.

(** ** Transactions

    A transaction is a call of one public function by some tx-sender. *)
Inductive call : Type :=
| DepositStx (amount : N)
| WithdrawStx (amount : N)
| BorrowStx (collateral_amount amount_stx : N)
| Repay
| Liquidate (user : principal)
| SetPaused (paused_value : bool)
| SetAdmin (new_admin : principal)
| SetParams (new_ltv new_interest new_threshold new_penalty : N)
| SetSbtcToken (new_token : principal).

Definition body (tx_sender : principal) (c : call) : M bool :=
  match c with
  | DepositStx amount => deposit_stx tx_sender amount
  | WithdrawStx amount => withdraw_stx tx_sender amount
  | BorrowStx collateral_amount amount_stx =>
      borrow_stx tx_sender collateral_amount amount_stx
  | Repay => repay tx_sender
  | Liquidate user => liquidate tx_sender user
  | SetPaused v => set_paused tx_sender v
  | SetAdmin a => set_admin tx_sender a
  | SetParams l i t p => set_params tx_sender l i t p
  | SetSbtcToken t => set_sbtc_token tx_sender t
  end.

(** What the sender of a transaction gets back. *)
Inductive receipt : Type :=
| Success (value : bool)
| Failure (code : N)
| RuntimeError.

(** A public function that returns an error response, or that stops on a
    runtime error, has every change it made to data variables, maps and
    balances discarded by the Clarity runtime; only an ok response
    commits. *)
Definition execute (tx_sender : principal) (c : call) (w : world)
    : receipt * world :=
  match body tx_sender c w with
  | Ok v w' => (Success v, w')
  | Err e _ => (Failure e, w)
  | Panic => (RuntimeError, w)
  end.

(** Value of a computation that changes nothing, if it has one. *)
Definition eval {A} (m : M A) (w : world) : option A :=
  match m w with
  | Ok a _ => Some a
  | _ => None
  end.

(** ** Histories of the pool

    Between two transactions anything outside the pool may change: STX
    and sBTC move between other parties, the oracle is updated. *)
Inductive event : Type :=
| Tx (tx_sender : principal) (c : call)
| Env (c' : chain).

Definition step (w : world) (e : event) : world :=
  match e with
  | Tx tx_sender c => snd (execute tx_sender c w)
  | Env c' => {| pool_of := pool_of w; chain_of := c' |}
  end.

Definition run (es : list event) (w : world) : world :=
  fold_left step es w.

Definition initial_world (c : chain) : world :=
  {| pool_of := initial_pool; chain_of := c |}.

(** Sum of a quantity over all records of a map. *)
Definition sum_of {A} (f : A -> N) (m : gmap string A) : N :=
  map_fold (fun _ x acc => f x + acc) 0 m.

(** What a borrow record is worth now: its principal plus the interest
    calculate-interest gives on it. *)
Definition folded_debt (w : world) (b : borrow_entry) : N :=
  b_amount b
  + default 0 (eval (calculate_interest (b_amount b) (b_last_accrued b)) w).

(** What holds of the pool after any history. *)
Record consistent (p : pool) : Prop := mk_consistent
  { cons_deposits : sum_of d_amount (deposits p) = total_stx_deposits p;
    cons_collateral : sum_of id (collateral p) = total_sbtc_collateral p;
    cons_borrows : sum_of b_amount (borrows p) = total_stx_borrows p;
    cons_range : total_stx_borrows p <= UINT_MAX;
    cons_clock : last_interest_accrual p = 0;
    cons_yield : cumulative_yield_bips p = 0;
    cons_accrued :
      forall u b, borrows p !! u = Some b -> b_last_accrued b = 0 }.

(** ** Sample states *)

(** A pool with its deployment values, except for what is given. *)
Definition sample_pool (deposited borrowed held_collateral : N)
    (last_accrual yield_bips : N) (is_paused : bool)
    (c : gmap string N) (d : gmap string deposit_entry)
    (b : gmap string borrow_entry) : pool :=
  {| total_sbtc_collateral := held_collateral;
     total_stx_deposits := deposited;
     total_stx_borrows := borrowed;
     last_interest_accrual := last_accrual;
     cumulative_yield_bips := yield_bips;
     admin := DEFAULT_ADMIN;
     paused := is_paused;
     ltv_percentage := LTV_PERCENTAGE;
     interest_rate_percentage := INTEREST_RATE_PERCENTAGE;
     liquidation_threshold_percentage := LIQUIDATION_THRESHOLD_PERCENTAGE;
     liquidation_penalty_percentage := LIQUIDATION_PENALTY_PERCENTAGE;
     sbtc_token := DEFAULT_SBTC_TOKEN;
     collateral := c;
     deposits := d;
     borrows := b |}.

(** Alice holds 20000 STX, Bob 1000 STX and 10 sBTC, the oracle says 100. *)
Definition fresh_chain : chain :=
  {| stx_balances := <["alice" := 20000]> (<["bob" := 1000]> ∅);
     sbtc_balances := <["bob" := 10]> ∅;
     oracle_reply := ok 100 |}.

(** Alice deposited 10000, Bob posted 10 sBTC and borrowed 700, and
    9500 more STX have left the pool since: it holds 300 STX. *)
Definition drained_world : world :=
  {| pool_of :=
       sample_pool 10000 700 10 0 0 false
         (<["bob" := 10]> ∅)
         (<["alice" := mk_deposit 10000 0]> ∅)
         (<["bob" := mk_borrow 700 0]> ∅);
     chain_of :=
       {| stx_balances :=
            <["alice" := 10000]>
              (<["bob" := 1700]> (<[contract_principal := 300]> ∅));
          sbtc_balances := <[contract_principal := 10]> ∅;
          oracle_reply := ok 100 |} |}.

(** Alice has 100 STX on deposit since the yield index was 0; the index
    has since reached 500, so 5 STX of yield are pending for her. *)
Definition yield_pending_world : world :=
  {| pool_of :=
       sample_pool 100 0 0 0 500 false ∅
         (<["alice" := mk_deposit 100 0]> ∅) ∅;
     chain_of :=
       {| stx_balances :=
            <["alice" := 50]> (<[contract_principal := 105]> ∅);
          sbtc_balances := ∅;
          oracle_reply := ok 100 |} |}.


(** Bob owes 700 against 10 sBTC, sBTC trades at 70 STX, so the debt
    equals the collateral value; Carol has STX to liquidate with. *)
Definition boundary_world (is_paused : bool) (owed : N) : world :=
  {| pool_of :=
       sample_pool 10000 owed 10 0 0 is_paused
         (<["bob" := 10]> ∅)
         (<["alice" := mk_deposit 10000 0]> ∅)
         (<["bob" := mk_borrow owed 0]> ∅);
     chain_of :=
       {| stx_balances :=
            <["carol" := 5000]> (<[contract_principal := 9300]> ∅);
          sbtc_balances := <[contract_principal := 10]> ∅;
          oracle_reply := ok 70 |} |}.

(** The pool right after Alice's first deposit of 10000 STX. *)
Definition funded_world : world :=
  run [Tx "alice" (DepositStx 10000)] (initial_world fresh_chain).

(** Bob owes 10000 since time 1, which is also the last accrual; Alice
    has 10000 on deposit. *)
Definition year_old_world : world :=
  {| pool_of :=
       sample_pool 10000 10000 200 1 0 false
         (<["bob" := 200]> ∅)
         (<["alice" := mk_deposit 10000 0]> ∅)
         (<["bob" := mk_borrow 10000 1]> ∅);
     chain_of := fresh_chain |}.

(** ** The mock sBTC token contract on its own

    The pool only moves balances of the token.  The contract itself also
    has the data variable [admin] and the entry points mint, burn and
    set-admin; the runtime keeps, for the fungible token [sbtc], the
    balances and the supply. *)
Module MockSbtcToken.

Record token : Type := mk_token
  { token_admin : principal;
    ft_balances : gmap string N;
    ft_supply : N }.

(** What a call leaves: its receipt, and the state it commits. *)
Definition reply : Type := receipt * token.

(** (try! r) followed by [k]: an error response of the built-in is the
    response of the whole call, and a call that fails commits nothing. *)
Definition try_then (t : token) (r : reply) (k : token -> reply) : reply :=
  match r with
  | (Success _, t') => k t'
  | (Failure e, _) => (Failure e, t)
  | (RuntimeError, _) => (RuntimeError, t)
  end.

(** (ft-transfer? sbtc amount sender recipient); the credit is a checked
    [uint] addition. *)
Definition ft_transfer (amount : N) (sender recipient : principal)
    (t : token) : reply :=
  if amount =? 0 then (Failure 3, t)
  else if bool_decide (sender = recipient) then (Failure 2, t)
  else if balance (ft_balances t) sender <? amount then (Failure 1, t)
  else if UINT_MAX <? balance (ft_balances t) recipient + amount
  then (RuntimeError, t)
  else (Success true,
        {| token_admin := token_admin t;
           ft_balances := move amount sender recipient (ft_balances t);
           ft_supply := ft_supply t |}).

(** (ft-mint? sbtc amount recipient); the token has no supply cap of its
    own, so the supply only has to stay a [uint]. *)
Definition ft_mint (amount : N) (recipient : principal) (t : token)
    : reply :=
  if amount =? 0 then (Failure 1, t)
  else if UINT_MAX <? ft_supply t + amount then (RuntimeError, t)
  else if UINT_MAX <? balance (ft_balances t) recipient + amount
  then (RuntimeError, t)
  else (Success true,
        {| token_admin := token_admin t;
           ft_balances :=
             <[recipient := balance (ft_balances t) recipient + amount]>
               (ft_balances t);
           ft_supply := ft_supply t + amount |}).

(** (ft-burn? sbtc amount owner) *)
Definition ft_burn (amount : N) (owner : principal) (t : token) : reply :=
  if amount =? 0 then (Failure 1, t)
  else if balance (ft_balances t) owner <? amount then (Failure 1, t)
  else (Success true,
        {| token_admin := token_admin t;
           ft_balances :=
             <[owner := balance (ft_balances t) owner - amount]>
               (ft_balances t);
           ft_supply := ft_supply t - amount |}).

Definition ERR_UNAUTHORIZED : N := 100.

Definition get_total_supply (t : token) : response N := ok (ft_supply t).

Definition get_balance (who : principal) (t : token) : response N :=
  ok (balance (ft_balances t) who).

(** The memo argument is not used by the contract. *)
Definition transfer (tx_sender : principal) (amount : N)
    (sender recipient : principal) (t : token) : reply :=
  if negb (bool_decide (sender = tx_sender))
  then (Failure ERR_UNAUTHORIZED, t)
  else try_then t (ft_transfer amount sender recipient t)
         (fun t' => (Success true, t')).

Definition mint (tx_sender : principal) (amount : N)
    (recipient : principal) (t : token) : reply :=
  if negb (bool_decide (tx_sender = token_admin t))
  then (Failure ERR_UNAUTHORIZED, t)
  else try_then t (ft_mint amount recipient t)
         (fun t' => (Success true, t')).

Definition burn (tx_sender : principal) (amount : N) (owner : principal)
    (t : token) : reply :=
  if negb (bool_decide (tx_sender = owner))
  then (Failure ERR_UNAUTHORIZED, t)
  else try_then t (ft_burn amount owner t)
         (fun t' => (Success true, t')).

Definition set_admin (tx_sender : principal) (new_admin : principal)
    (t : token) : reply :=
  if negb (bool_decide (tx_sender = token_admin t))
  then (Failure ERR_UNAUTHORIZED, t)
  else (Success true,
        {| token_admin := new_admin;
           ft_balances := ft_balances t;
           ft_supply := ft_supply t |}).

(** A transaction on the token: a call of one public function. *)
Inductive token_call : Type :=
| Transfer (amount : N) (sender recipient : principal)
| Mint (amount : N) (recipient : principal)
| Burn (amount : N) (owner : principal)
| SetTokenAdmin (new_admin : principal).

Definition token_execute (tx_sender : principal) (c : token_call)
    (t : token) : reply :=
  match c with
  | Transfer amount sender recipient =>
      transfer tx_sender amount sender recipient t
  | Mint amount recipient => mint tx_sender amount recipient t
  | Burn amount owner => burn tx_sender amount owner t
  | SetTokenAdmin new_admin => set_admin tx_sender new_admin t
  end.

Definition token_run (txs : list (principal * token_call)) (t : token)
    : token :=
  fold_left (fun t tx => snd (token_execute (fst tx) (snd tx) t)) txs t.

(** The token as deployed: (define-data-var admin principal tx-sender),
    and nothing minted. *)
Definition deployed (deployer : principal) : token :=
  {| token_admin := deployer; ft_balances := ∅; ft_supply := 0 |}.

End MockSbtcToken.

(** The pool's picture of the chain, with the token's balances in it. *)
Definition seen_by_pool (t : MockSbtcToken.token) (w : world) : world :=
  put_sbtc_balances (MockSbtcToken.ft_balances t) w.

(** The supply is what the balances add up to, and it is a [uint]. *)
Definition token_sound (t : MockSbtcToken.token) : Prop :=
  sum_of id (MockSbtcToken.ft_balances t) = MockSbtcToken.ft_supply t
  /\ MockSbtcToken.ft_supply t <= UINT_MAX.

(** ** Further vocabulary for statements about the pool *)

(** The five entry points that move funds. *)
Definition moves_funds (c : call) : bool :=
  match c with
  | DepositStx _ | WithdrawStx _ | BorrowStx _ _ | Repay | Liquidate _ => true
  | _ => false
  end.

(** What only the admin functions write: the admin, the pause flag, the
    four risk parameters and the token reference. *)
Definition settings (p : pool)
    : principal * bool * (N * N * N * N) * principal :=
  (admin p, paused p,
   (ltv_percentage p, interest_rate_percentage p,
    liquidation_threshold_percentage p, liquidation_penalty_percentage p),
   sbtc_token p).

(** The bounds set-params asserts. *)
Definition within_bounds (p : pool) : Prop :=
  ltv_percentage p <= 90
  /\ interest_rate_percentage p <= 100
  /\ liquidation_threshold_percentage p <= 150
  /\ liquidation_penalty_percentage p <= 30.

(** The three records of an account. *)
Definition position (p : pool) (who : principal)
    : option deposit_entry * option borrow_entry * option N :=
  (deposits p !! who, borrows p !! who, collateral p !! who).

(** A history in which nothing outside the pool takes STX or sBTC away
    from it: the tokens let only their holder move them, so what the pool
    holds can be lowered by the pool's own transfers alone. *)
Fixpoint undisturbed (es : list event) (w : world) : Prop :=
  match es with
  | [] => True
  | e :: es' =>
      match e with
      | Tx _ _ => True
      | Env c' =>
          balance (stx_balances (chain_of w)) contract_principal
          <= balance (stx_balances c') contract_principal
          /\ balance (sbtc_balances (chain_of w)) contract_principal
             <= balance (sbtc_balances c') contract_principal
      end
      /\ undisturbed es' (step w e)
  end.

(** A history without liquidations. *)
Definition no_liquidation (es : list event) : Prop :=
  forall tx_sender user, Tx tx_sender (Liquidate user) ∉ es.

(** ** The amount field of the web front end (lib/stx-utils.ts)

    The front end reads the amounts it sends to deposit-stx,
    withdraw-stx and borrow-stx from text fields, and shows balances as
    text.  A JavaScript [bigint] is an integer; a string is a sequence of
    code units, of which [string] has those below 256. *)
Module StxUtils.

Definition MICROSTX_PER_STX : Z := 1000000.

Fixpoint every (p : ascii -> bool) (s : string) : bool :=
  match s with
  | EmptyString => true
  | String c s' => p c && every p s'
  end.

(** [\d] *)
Definition is_digit (c : ascii) : bool :=
  match Ascii.is_nat c with
  | Some _ => true
  | None => false
  end.

Definition is_zero (c : ascii) : bool := bool_decide (c = "0"%char).

Definition is_dot (c : ascii) : bool := bool_decide (c = "."%char).

(** White space and line terminators, what String.prototype.trim
    removes. *)
Definition is_space (c : ascii) : bool :=
  match c with
  | "009" | "010" | "011" | "012" | "013" | " " | "160" => true
  | _ => false
  end%char.

Fixpoint trim_start (s : string) : string :=
  match s with
  | EmptyString => EmptyString
  | String c s' => if is_space c then trim_start s' else s
  end.

Fixpoint trim_end (s : string) : string :=
  match s with
  | EmptyString => EmptyString
  | String c s' =>
      match trim_end s' with
      | EmptyString => if is_space c then EmptyString else String c EmptyString
      | t => String c t
      end
  end.

(** s.trim() *)
Definition trim (s : string) : string := trim_end (trim_start s).

(** [\d{0,6}$] *)
Definition fraction_ok (s : string) : bool :=
  every is_digit s && bool_decide (String.length s <= 6)%nat.

(** [(\.\d{0,6})?$] *)
Definition tail_ok (s : string) : bool :=
  match s with
  | EmptyString => true
  | String c s' => is_dot c && fraction_ok s'
  end.

(** [\d*(\.\d{0,6})?$]: a digit is no dot, so the digits are taken as
    long as they last. *)
Fixpoint digits_then_tail (s : string) : bool :=
  match s with
  | EmptyString => true
  | String c s' => if is_digit c then digits_then_tail s' else tail_ok s
  end.

(** /^\d+(\.\d{0,6})?$/.test(s) *)
Definition test_amount (s : string) : bool :=
  match s with
  | EmptyString => false
  | String c s' => is_digit c && digits_then_tail s'
  end.

(** s.split(".") *)
Fixpoint split_dot (s : string) : list string :=
  match s with
  | EmptyString => [EmptyString]
  | String c s' =>
      if is_dot c then EmptyString :: split_dot s'
      else
        match split_dot s' with
        | first :: rest => String c first :: rest
        | [] => [String c EmptyString]
        end
  end.

(** s.slice(0, n) *)
Fixpoint slice_to (n : nat) (s : string) : string :=
  match n, s with
  | S n', String c s' => String c (slice_to n' s')
  | _, _ => EmptyString
  end.

Fixpoint zeros (n : nat) : string :=
  match n with
  | O => EmptyString
  | S n' => String "0" (zeros n')
  end.

(** s.padStart(n, "0") *)
Definition padStart (n : nat) (s : string) : string :=
  zeros (n - String.length s) +:+ s.

(** s.replace(/0+$/, "") *)
Fixpoint strip_trailing_zeros (s : string) : string :=
  match s with
  | EmptyString => EmptyString
  | String c s' =>
      match strip_trailing_zeros s' with
      | EmptyString => if is_zero c then EmptyString else String c EmptyString
      | t => String c t
      end
  end.

Fixpoint digits_value (s : string) (acc : Z) : Z :=
  match s with
  | EmptyString => acc
  | String c s' =>
      digits_value s'
        (10 * acc + Z.of_nat (default 0%nat (Ascii.is_nat c)))%Z
  end.

(** BigInt(s) for a string of decimal digits, the only strings it is
    given here; leading zeros are allowed and the empty string is 0n. *)
Definition BigInt (s : string) : Z := digits_value s 0.

(** n.toString() of a bigint *)
Definition toString (n : Z) : string := pretty n.

(** A [bigint], or null. *)
Definition parseStxToMicrostx (value : string) : option Z :=
  let trimmed := trim value in
  if bool_decide (trimmed = "") then None
  else if negb (test_amount trimmed) then None
  else
    let parts := split_dot trimmed in
    let whole := nth 0 parts "" in
    let fraction := nth 1 parts "" in
    let paddedFraction := slice_to 6 (fraction +:+ "000000") in
    let micro :=
      (BigInt whole * MICROSTX_PER_STX
       + BigInt (if bool_decide (paddedFraction = "") then "0"
                 else paddedFraction))%Z in
    if (0 <? micro)%Z then Some micro else None.

(** Division and remainder of [bigint] round towards zero. *)
Definition formatMicrostxToStx (value : Z) : string :=
  let whole := Z.quot value MICROSTX_PER_STX in
  let fraction := Z.rem value MICROSTX_PER_STX in
  if (fraction =? 0)%Z then toString whole
  else
    let fractionText :=
      strip_trailing_zeros (padStart 6 (toString fraction)) in
    toString whole +:+ "." +:+ fractionText.

End StxUtils.

(** ** The action panel of the web front end
       (app/components/stx-actions.tsx)

    The panel keeps the texts of its amount fields and the deposit it
    has last read from the [deposits] map; submit turns them into one
    contract call. *)
Module StxActions.

















End StxActions.



(** ** Further sample states *)

(** Bob has posted 10 sBTC and borrowed 700 STX from the funded pool. *)
Definition borrowed_world : world :=
  run [Tx "bob" (BorrowStx 10 700)] funded_world.

(** Alice deposits, Bob borrows, the oracle moves to 90 while all
    balances stay as they are, and Bob repays. *)
Definition quiet_history : list event :=
  [ Tx "alice" (DepositStx 10000);
    Tx "bob" (BorrowStx 10 700);
    Env {| stx_balances :=
             <["alice" := 10000]>
               (<["bob" := 1700]> (<[contract_principal := 9300]> ∅));
           sbtc_balances := <[contract_principal := 10]> ∅;
           oracle_reply := ok 90 |};
    Tx "bob" Repay ].

(** The token after the deployer has minted 100 to wallet_1 and wallet_1
    has passed 25 on to wallet_2. *)
Definition sample_token : MockSbtcToken.token :=
  MockSbtcToken.token_run
    [ ("deployer", MockSbtcToken.Mint 100 "wallet_1");
      ("wallet_1", MockSbtcToken.Transfer 25 "wallet_1" "wallet_2") ]
    (MockSbtcToken.deployed "deployer").


(** ** Reasoning about computations *)

Section Inversion.
Context {A B : Type}.

Lemma bind_Ok (m : M A) (k : A -> M B) w b w2 :
  bind m k w = Ok b w2 ->
  exists a w1, m w = Ok a w1 /\ k a w1 = Ok b w2.
Proof.
  unfold bind. destruct (m w) as [a w1| |]; try discriminate. eauto.
Qed.

Lemma bind_eval (m : M A) (k : A -> M B) w a w1 :
  m w = Ok a w1 -> bind m k w = k a w1.
Proof. unfold bind. now intros ->. Qed.

Lemma unwrap_Ok (m : M A) e w a w1 :
  unwrap m e w = Ok a w1 -> m w = Ok a w1.
Proof. unfold unwrap. destruct (m w); congruence. Qed.

Lemma unwrap_panic_Ok (m : M A) w a w1 :
  unwrap_panic m w = Ok a w1 -> m w = Ok a w1.
Proof. unfold unwrap_panic. destruct (m w); congruence. Qed.

Lemma unwrap_some_Ok (o : option A) e w a w1 :
  unwrap_some o e w = Ok a w1 -> o = Some a /\ w1 = w.
Proof. destruct o; cbn; intros [=]; subst; auto. Qed.
End Inversion.

Lemma ret_Ok {A} (a b : A) w w1 : ret a w = Ok b w1 -> b = a /\ w1 = w.
Proof. intros [=]; auto. Qed.

Lemma var_get_Ok {A} (f : pool -> A) w a w1 :
  var_get f w = Ok a w1 -> a = f (pool_of w) /\ w1 = w.
Proof. intros [=]; auto. Qed.

Lemma var_set_Ok f w u w1 : var_set f w = Ok u w1 -> w1 = with_pool f w.
Proof. intros [=]; auto. Qed.

Lemma asserts_Ok b e w u w1 : asserts b e w = Ok u w1 -> b = true /\ w1 = w.
Proof. destruct b; cbn; intros [=]; auto. Qed.

Lemma uadd_Ok a b w c w1 :
  uadd a b w = Ok c w1 -> c = a + b /\ a + b <= UINT_MAX /\ w1 = w.
Proof.
  unfold uadd. destruct (N.leb_spec (a + b) UINT_MAX); intros [=]; auto.
Qed.

Lemma usub_Ok a b w c w1 :
  usub a b w = Ok c w1 -> c = a - b /\ b <= a /\ w1 = w.
Proof. unfold usub. destruct (N.leb_spec b a); intros [=]; auto. Qed.

Lemma umul_Ok a b w c w1 :
  umul a b w = Ok c w1 -> c = a * b /\ a * b <= UINT_MAX /\ w1 = w.
Proof.
  unfold umul. destruct (N.leb_spec (a * b) UINT_MAX); intros [=]; auto.
Qed.

Lemma udiv_Ok a b w c w1 :
  udiv a b w = Ok c w1 -> c = a / b /\ b <> 0 /\ w1 = w.
Proof. unfold udiv. destruct (N.eqb_spec b 0); intros [=]; auto. Qed.

Lemma stx_get_balance_Ok who w a w1 :
  stx_get_balance who w = Ok a w1 ->
  a = balance (stx_balances (chain_of w)) who /\ w1 = w.
Proof. intros [=]; auto. Qed.

Lemma get_sbtc_stx_price_Ok w p w1 :
  get_sbtc_stx_price w = Ok p w1 ->
  oracle_reply (chain_of w) = ok p /\ w1 = w.
Proof.
  unfold get_sbtc_stx_price. destruct (oracle_reply _); intros [=]; subst; auto.
Qed.

Lemma stx_transfer_Ok tx amount sender recipient w v w1 :
  stx_transfer tx amount sender recipient w = Ok v w1 ->
  amount <> 0 /\ sender <> recipient /\ sender = tx /\
  amount <= balance (stx_balances (chain_of w)) sender /\
  w1 = put_stx_balances
         (move amount sender recipient (stx_balances (chain_of w))) w.
Proof.
  unfold stx_transfer.
  destruct (N.eqb_spec amount 0); [discriminate|].
  case_bool_decide; [discriminate|].
  case_bool_decide; [|discriminate]. cbn.
  destruct (N.ltb_spec (balance (stx_balances (chain_of w)) sender) amount);
    intros [=]; auto.
Qed.

Lemma sbtc_transfer_Ok tx amount sender recipient w v w1 :
  MockSbtc.transfer tx amount sender recipient w = Ok v w1 ->
  amount <> 0 /\ sender <> recipient /\ sender = tx /\
  amount <= balance (sbtc_balances (chain_of w)) sender /\
  w1 = put_sbtc_balances
         (move amount sender recipient (sbtc_balances (chain_of w))) w.
Proof.
  unfold MockSbtc.transfer, MockSbtc.ft_transfer, bind, asserts.
  case_bool_decide; [|discriminate]. cbn.
  destruct (N.eqb_spec amount 0); [discriminate|].
  case_bool_decide; [discriminate|].
  destruct (N.ltb_spec (balance (sbtc_balances (chain_of w)) sender) amount);
    intros [=]; auto.
Qed.

(** Decompose a hypothesis that says a computation finished normally. *)
Ltac inv_ok_step :=
  match goal with
  | H : bind _ _ _ = Ok _ _ |- _ =>
      apply bind_Ok in H; destruct H as (? & ? & ? & H); cbv beta zeta in H
  | H : ret _ _ = Ok _ _ |- _ => apply ret_Ok in H; destruct H as [? ?]
  | H : var_get _ _ = Ok _ _ |- _ => apply var_get_Ok in H; destruct H as [? ?]
  | H : var_set _ _ = Ok _ _ |- _ => apply var_set_Ok in H
  | H : asserts _ _ _ = Ok _ _ |- _ => apply asserts_Ok in H; destruct H as [? ?]
  | H : unwrap _ _ _ = Ok _ _ |- _ => apply unwrap_Ok in H
  | H : unwrap_panic _ _ = Ok _ _ |- _ => apply unwrap_panic_Ok in H
  | H : unwrap_some _ _ _ = Ok _ _ |- _ =>
      apply unwrap_some_Ok in H; destruct H as [? ?]
  | H : uadd _ _ _ = Ok _ _ |- _ => apply uadd_Ok in H; destruct H as (? & ? & ?)
  | H : usub _ _ _ = Ok _ _ |- _ => apply usub_Ok in H; destruct H as (? & ? & ?)
  | H : umul _ _ _ = Ok _ _ |- _ => apply umul_Ok in H; destruct H as (? & ? & ?)
  | H : udiv _ _ _ = Ok _ _ |- _ => apply udiv_Ok in H; destruct H as (? & ? & ?)
  | H : stx_get_balance _ _ = Ok _ _ |- _ =>
      apply stx_get_balance_Ok in H; destruct H as [? ?]
  | H : get_contract_balance _ = Ok _ _ |- _ =>
      apply stx_get_balance_Ok in H; destruct H as [? ?]
  | H : get_sbtc_stx_price _ = Ok _ _ |- _ =>
      apply get_sbtc_stx_price_Ok in H; destruct H as [? ?]
  | H : stx_transfer _ _ _ _ _ = Ok _ _ |- _ =>
      apply stx_transfer_Ok in H; destruct H as (? & ? & ? & ? & ?)
  | H : MockSbtc.transfer _ _ _ _ _ = Ok _ _ |- _ =>
      apply sbtc_transfer_Ok in H; destruct H as (? & ? & ? & ? & ?)
  | H : (if ?c then _ else _) _ = Ok _ _ |- _ => destruct c eqn:?
  | H : throw _ _ = Ok _ _ |- _ => discriminate H
  | H : panic _ = Ok _ _ |- _ => discriminate H
  end.

Ltac inv_ok := repeat inv_ok_step.

(** *** The private helpers under the constant clock *)

Lemma put_last_interest_accrual_id w :
  last_interest_accrual (pool_of w) = 0 ->
  with_pool (put_last_interest_accrual 0) w = w.
Proof.
  destruct w as [[] ?]; cbn. intros ->. reflexivity.
Qed.

Lemma accrue_interest_eq w :
  accrue_interest w =
  if last_interest_accrual (pool_of w) =? 0 then Ok true w else Panic.
Proof.
  unfold accrue_interest, accrue_interest_at, get_current_time, bind, var_get.
  destruct (N.eqb_spec (last_interest_accrual (pool_of w)) 0) as [E|E].
  - cbn. unfold var_set. now rewrite put_last_interest_accrual_id.
  - unfold usub. destruct (N.leb_spec (last_interest_accrual (pool_of w)) 0).
    + lia.
    + reflexivity.
Qed.

Lemma accrue_interest_Ok w v w1 :
  accrue_interest w = Ok v w1 ->
  last_interest_accrual (pool_of w) = 0 /\ w1 = w.
Proof.
  rewrite accrue_interest_eq.
  destruct (N.eqb_spec (last_interest_accrual (pool_of w)) 0);
    intros [=]; auto.
Qed.

Lemma calculate_interest_eq amount last_accrued w :
  calculate_interest amount last_accrued w =
  if last_accrued =? 0 then Ok 0 w else Panic.
Proof.
  unfold calculate_interest, calculate_interest_at, get_current_time, bind, usub.
  destruct (N.eqb_spec last_accrued 0) as [->|E].
  - reflexivity.
  - destruct (N.leb_spec last_accrued 0); [lia | reflexivity].
Qed.

Lemma calculate_interest_Ok amount last_accrued w i w1 :
  calculate_interest amount last_accrued w = Ok i w1 ->
  last_accrued = 0 /\ i = 0 /\ w1 = w.
Proof.
  rewrite calculate_interest_eq.
  destruct (N.eqb_spec last_accrued 0); intros [=]; auto.
Qed.

(** ** Sums over the record maps *)

Section Sums.
Context {A : Type} (f : A -> N).

Lemma sum_of_empty : sum_of f ∅ = 0.
Proof. unfold sum_of. apply map_fold_empty. Qed.

Lemma sum_of_insert_fresh (m : gmap string A) k v :
  m !! k = None -> sum_of f (<[k:=v]> m) = f v + sum_of f m.
Proof.
  intros Hk. unfold sum_of.
  rewrite map_fold_insert_L; [reflexivity| |exact Hk].
  intros. lia.
Qed.

Lemma sum_of_delete (m : gmap string A) k x :
  m !! k = Some x -> sum_of f m = f x + sum_of f (delete k m).
Proof.
  intros Hk. rewrite <- (insert_delete_id m k x Hk) at 1.
  apply sum_of_insert_fresh, lookup_delete_eq.
Qed.

Lemma sum_of_insert (m : gmap string A) k v :
  sum_of f (<[k:=v]> m) + default 0 (f <$> m !! k) = f v + sum_of f m.
Proof.
  destruct (m !! k) as [x|] eqn:Hk; cbn.
  - rewrite <- (insert_delete_eq m k v).
    rewrite sum_of_insert_fresh by apply lookup_delete_eq.
    rewrite (sum_of_delete m k x Hk). lia.
  - rewrite sum_of_insert_fresh by exact Hk. lia.
Qed.

Lemma sum_of_delete_default (m : gmap string A) k :
  sum_of f m = default 0 (f <$> m !! k) + sum_of f (delete k m).
Proof.
  destruct (m !! k) as [x|] eqn:Hk; cbn.
  - now apply sum_of_delete.
  - now rewrite delete_id.
Qed.

Lemma sum_of_lookup_le (m : gmap string A) k x :
  m !! k = Some x -> f x <= sum_of f m.
Proof. intros Hk. rewrite (sum_of_delete m k x Hk). lia. Qed.

Lemma sum_of_ext (g : A -> N) (m : gmap string A) :
  (forall k x, m !! k = Some x -> f x = g x) -> sum_of f m = sum_of g m.
Proof.
  induction m as [|k x m Hk _ IH] using map_first_key_ind; intros Hfg.
  - unfold sum_of. now rewrite !map_fold_empty.
  - rewrite sum_of_insert_fresh by exact Hk.
    unfold sum_of at 2.
    rewrite map_fold_insert_L; [| intros; lia | exact Hk].
    fold (sum_of g m).
    rewrite (Hfg k x) by apply lookup_insert_eq.
    rewrite IH; [reflexivity|].
    intros k' x' Hk'. apply (Hfg k').
    rewrite lookup_insert_ne; [exact Hk'|]. intros ->. congruence.
Qed.
End Sums.

Lemma get_pending_yield_Ok user w y w1 :
  get_pending_yield user w = Ok y w1 ->
  let amount_stx := default 0 (d_amount <$> deposits (pool_of w) !! user) in
  let yield_index :=
    default 0 (d_yield_index <$> deposits (pool_of w) !! user) in
  yield_index <= cumulative_yield_bips (pool_of w) /\
  y = amount_stx * (cumulative_yield_bips (pool_of w) - yield_index) / 10000 /\
  w1 = w.
Proof.
  unfold get_pending_yield. intros H. inv_ok. subst. cbn. auto.
Qed.

Ltac inv_call :=
  repeat first
    [ inv_ok_step
    | match goal with
      | H : accrue_interest _ = Ok _ _ |- _ =>
          apply accrue_interest_Ok in H; destruct H as [? ?]
      | H : calculate_interest _ _ _ = Ok _ _ |- _ =>
          apply calculate_interest_Ok in H; destruct H as (? & ? & ?)
      | H : get_pending_yield _ _ = Ok _ _ |- _ =>
          apply get_pending_yield_Ok in H; cbv zeta in H;
          destruct H as (? & ? & ?)
      end ].

Lemma deposit_stx_consistent who amount w v w' :
  deposit_stx who amount w = Ok v w' ->
  consistent (pool_of w) -> consistent (pool_of w').
Proof.
  unfold deposit_stx. intros H [Hd Hc Hb Hr Hl Hy Ha]. inv_call. subst. cbn in *.
  split; cbn; auto.
  pose proof (sum_of_insert d_amount (deposits (pool_of w)) who
    (mk_deposit (default 0 (d_amount <$> deposits (pool_of w) !! who) + amount)
                (cumulative_yield_bips (pool_of w)))) as E.
  cbn in E. lia.
Qed.

Lemma withdraw_stx_consistent who amount w v w' :
  withdraw_stx who amount w = Ok v w' ->
  consistent (pool_of w) -> consistent (pool_of w').
Proof.
  unfold withdraw_stx. intros H [Hd Hc Hb Hr Hl Hy Ha].
  inv_call; subst; cbn in *; split; cbn; auto.
  - match goal with
    | E : deposits (pool_of w) !! who = Some ?d |- _ =>
        pose proof (sum_of_delete d_amount _ _ _ E)
    end.
    apply N.eqb_eq in Heqb. lia.
  - match goal with
    | E : deposits (pool_of w) !! who = Some ?d |- _ =>
        pose proof (sum_of_insert d_amount (deposits (pool_of w)) who
          (mk_deposit (d_amount d - amount)
             (cumulative_yield_bips (pool_of w)))) as E';
        rewrite E in E'
    end.
    cbn in E'. lia.
Qed.

Lemma borrow_stx_consistent who c amount w v w' :
  borrow_stx who c amount w = Ok v w' ->
  consistent (pool_of w) -> consistent (pool_of w').
Proof.
  unfold borrow_stx. intros H [Hd Hc Hb Hr Hl Hy Ha].
  pose proof (sum_of_insert id (collateral (pool_of w)) who
    (default 0 (collateral (pool_of w) !! who) + c)) as Ec.
  pose proof (sum_of_insert b_amount (borrows (pool_of w)) who
    (mk_borrow (default 0 (b_amount <$> borrows (pool_of w) !! who) + 0 + amount)
       get_current_time)) as Eb.
  rewrite option_fmap_id in Ec. cbn in Ec, Eb.
  inv_call; subst; cbn in *; split; cbn; auto; try lia.
  - intros u b. rewrite lookup_insert. case_decide.
    + intros [= <-]. reflexivity.
    + apply Ha.
  - apply N.ltb_ge in Heqb. lia.
  - intros u b. rewrite lookup_insert. case_decide.
    + intros [= <-]. reflexivity.
    + apply Ha.
Qed.

Lemma repay_consistent who w v w' :
  repay who w = Ok v w' ->
  consistent (pool_of w) -> consistent (pool_of w').
Proof.
  unfold repay. intros H [Hd Hc Hb Hr Hl Hy Ha].
  pose proof (sum_of_delete_default id (collateral (pool_of w)) who) as Ec.
  rewrite option_fmap_id in Ec. cbn in Ec.
  inv_call; subst; cbn in *;
    match goal with
    | E : borrows (pool_of w) !! who = Some ?d |- _ =>
        pose proof (sum_of_delete b_amount _ _ _ E)
    end;
    split; cbn; auto; try lia;
    intros u b Hu; apply lookup_delete_Some in Hu as [_ Hu]; eauto.
Qed.

Lemma liquidate_consistent who user w v w' :
  liquidate who user w = Ok v w' ->
  consistent (pool_of w) -> consistent (pool_of w').
Proof.
  unfold liquidate. intros H [Hd Hc Hb Hr Hl Hy Ha].
  inv_call; subst; cbn in *;
    match goal with
    | E : borrows (pool_of w) !! user = Some ?d |- _ =>
        pose proof (sum_of_delete b_amount _ _ _ E)
    end;
    match goal with
    | E : collateral (pool_of w) !! user = Some ?d |- _ =>
        pose proof (sum_of_delete id _ _ _ E)
    end;
    split; cbn in *; auto; try lia;
    intros u b Hu; apply lookup_delete_Some in Hu as [_ Hu]; eauto.
Qed.

Lemma admin_consistent who c w v w' :
  match c with
  | SetPaused _ | SetAdmin _ | SetParams _ _ _ _ | SetSbtcToken _ => True
  | _ => False
  end ->
  body who c w = Ok v w' ->
  consistent (pool_of w) -> consistent (pool_of w').
Proof.
  destruct c; try contradiction; intros _; cbn;
    unfold set_paused, set_admin, set_params, set_sbtc_token;
    intros H [Hd Hc Hb Hr Hl Hy Ha]; inv_call; subst; cbn in *;
    split; cbn; auto.
Qed.

Lemma body_consistent who c w v w' :
  body who c w = Ok v w' ->
  consistent (pool_of w) -> consistent (pool_of w').
Proof.
  destruct c;
    eauto using deposit_stx_consistent, withdraw_stx_consistent,
      borrow_stx_consistent, repay_consistent, liquidate_consistent;
    now apply admin_consistent.
Qed.

Lemma initial_pool_consistent : consistent initial_pool.
Proof.
  split; cbn; try reflexivity.
  - unfold UINT_MAX. lia.
  - intros u b. rewrite lookup_empty. discriminate.
Qed.

Lemma step_consistent w e :
  consistent (pool_of w) -> consistent (pool_of (step w e)).
Proof.
  destruct e as [who c|c']; cbn; [|auto].
  unfold execute. destruct (body who c w) eqn:E; cbn; auto.
  eauto using body_consistent.
Qed.

Lemma run_consistent es w :
  consistent (pool_of w) -> consistent (pool_of (run es w)).
Proof.
  revert w. induction es as [|e es IH]; intros w Hw; cbn; [exact Hw|].
  apply IH, step_consistent, Hw.
Qed.

(** *** Running a computation forward *)

Lemma UINT_MAX_eq : UINT_MAX = 340282366920938463463374607431768211455.
Proof. reflexivity. Qed.

Lemma uadd_ok a b w : a + b <= UINT_MAX -> uadd a b w = Ok (a + b) w.
Proof. unfold uadd. destruct (N.leb_spec (a + b) UINT_MAX); [easy|lia]. Qed.

Lemma usub_ok a b w : b <= a -> usub a b w = Ok (a - b) w.
Proof. unfold usub. destruct (N.leb_spec b a); [easy|lia]. Qed.

Lemma umul_ok a b w : a * b <= UINT_MAX -> umul a b w = Ok (a * b) w.
Proof. unfold umul. destruct (N.leb_spec (a * b) UINT_MAX); [easy|lia]. Qed.

Lemma udiv_ok a b w : b <> 0 -> udiv a b w = Ok (a / b) w.
Proof. unfold udiv. destruct (N.eqb_spec b 0); [contradiction|easy]. Qed.

Lemma asserts_ok b e w : b = true -> asserts b e w = Ok tt w.
Proof. now intros ->. Qed.

Lemma asserts_fails b e w : b = false -> asserts b e w = Err e w.
Proof. now intros ->. Qed.

Lemma unwrap_ok {A} (m : M A) e w a w1 :
  m w = Ok a w1 -> unwrap m e w = Ok a w1.
Proof. unfold unwrap. now intros ->. Qed.

Lemma unwrap_panic_ok {A} (m : M A) w a w1 :
  m w = Ok a w1 -> unwrap_panic m w = Ok a w1.
Proof. unfold unwrap_panic. now intros ->. Qed.

Lemma bind_fails {A B} (m : M A) (k : A -> M B) w e w1 :
  m w = Err e w1 -> bind m k w = Err e w1.
Proof. unfold bind. now intros ->. Qed.

Lemma stx_transfer_ok tx amount recipient w :
  amount <> 0 -> tx <> recipient ->
  amount <= balance (stx_balances (chain_of w)) tx ->
  stx_transfer tx amount tx recipient w
  = Ok true
      (put_stx_balances
         (move amount tx recipient (stx_balances (chain_of w))) w).
Proof.
  intros Ha Hr Hb. unfold stx_transfer.
  destruct (N.eqb_spec amount 0); [contradiction|].
  rewrite bool_decide_eq_false_2 by exact Hr.
  rewrite bool_decide_eq_true_2 by reflexivity. cbn.
  destruct (N.ltb_spec (balance (stx_balances (chain_of w)) tx) amount);
    [lia|reflexivity].
Qed.

Lemma sbtc_transfer_ok tx amount recipient w :
  amount <> 0 -> tx <> recipient ->
  amount <= balance (sbtc_balances (chain_of w)) tx ->
  MockSbtc.transfer tx amount tx recipient w
  = Ok true
      (put_sbtc_balances
         (move amount tx recipient (sbtc_balances (chain_of w))) w).
Proof.
  intros Ha Hr Hb. unfold MockSbtc.transfer, MockSbtc.ft_transfer, bind.
  rewrite bool_decide_eq_true_2 by reflexivity. cbn.
  destruct (N.eqb_spec amount 0); [contradiction|].
  rewrite bool_decide_eq_false_2 by exact Hr.
  destruct (N.ltb_spec (balance (sbtc_balances (chain_of w)) tx) amount);
    [lia|reflexivity].
Qed.

(** Read fields through the updates made so far. *)
Ltac fields :=
  cbn [pool_of chain_of with_pool stx_balances sbtc_balances oracle_reply
       total_sbtc_collateral total_stx_deposits total_stx_borrows
       last_interest_accrual cumulative_yield_bips admin paused
       ltv_percentage interest_rate_percentage
       liquidation_threshold_percentage liquidation_penalty_percentage
       sbtc_token collateral deposits borrows
       put_total_sbtc_collateral put_total_stx_deposits
       put_total_stx_borrows put_last_interest_accrual
       put_cumulative_yield_bips put_admin put_paused put_ltv_percentage
       put_interest_rate_percentage put_liquidation_threshold_percentage
       put_liquidation_penalty_percentage put_sbtc_token put_collateral
       put_deposits put_borrows put_stx_balances put_sbtc_balances
       default fmap option_fmap option_map negb orb andb
       d_amount d_yield_index b_amount b_last_accrued] in *.

(** Solve a side condition on numbers or booleans. *)
Ltac side :=
  fields;
  first
    [ assumption
    | reflexivity
    | rewrite ?UINT_MAX_eq in *;
      repeat match goal with
        | |- (_ <? _) = true => apply N.ltb_lt
        | |- (_ <=? _) = true => apply N.leb_le
        | |- (_ <? _) = false => apply N.ltb_ge
        | |- (_ <=? _) = false => apply N.leb_gt
        | |- (_ =? _) = false => apply N.eqb_neq
        | |- (_ =? _) = true => apply N.eqb_eq
        | |- negb _ = true => apply negb_true_iff
        end;
      first [assumption | lia | congruence] ].

(** Evaluate the first command of a sequence. *)
Ltac fwd_one :=
  first
    [ reflexivity
    | apply uadd_ok; side
    | apply usub_ok; side
    | apply umul_ok; side
    | apply udiv_ok; side
    | apply asserts_ok; side
    | apply unwrap_ok; fwd_one
    | apply unwrap_panic_ok; fwd_one
    | apply stx_transfer_ok; side
    | apply sbtc_transfer_ok; side
    | erewrite bind_eval by fwd_one; cbv beta zeta; fwd_one ].

Ltac fwd := repeat (erewrite bind_eval by fwd_one; cbv beta zeta).

Lemma accrue_interest_ok w :
  last_interest_accrual (pool_of w) = 0 -> accrue_interest w = Ok true w.
Proof. intros E. now rewrite accrue_interest_eq, E. Qed.

Lemma calculate_interest_ok amount w :
  calculate_interest amount 0 w = Ok 0 w.
Proof. now rewrite calculate_interest_eq. Qed.

Lemma get_pending_yield_ok user w :
  let amount_stx := default 0 (d_amount <$> deposits (pool_of w) !! user) in
  let yield_index :=
    default 0 (d_yield_index <$> deposits (pool_of w) !! user) in
  yield_index <= cumulative_yield_bips (pool_of w) ->
  amount_stx * (cumulative_yield_bips (pool_of w) - yield_index)
  <= UINT_MAX ->
  get_pending_yield user w
  = Ok (amount_stx * (cumulative_yield_bips (pool_of w) - yield_index)
        / 10000) w.
Proof.
  intros amount_stx yield_index Hle Hmax. unfold get_pending_yield.
  fwd. apply udiv_ok. discriminate.
Qed.

(** *** Balances after a transfer *)

Lemma balance_move_recipient amount sender recipient m :
  sender <> recipient ->
  balance (move amount sender recipient m) recipient
  = balance m recipient + amount.
Proof.
  intros _. unfold balance at 1, move. now rewrite lookup_insert_eq.
Qed.

Lemma balance_move_sender amount sender recipient m :
  sender <> recipient ->
  balance (move amount sender recipient m) sender
  = balance m sender - amount.
Proof.
  intros Hne. unfold balance at 1, move.
  rewrite lookup_insert_ne by congruence. now rewrite lookup_insert_eq.
Qed.

Lemma balance_move_other amount sender recipient m who :
  who <> sender -> who <> recipient ->
  balance (move amount sender recipient m) who = balance m who.
Proof.
  intros Hs Hr. unfold balance, move.
  now rewrite !lookup_insert_ne by congruence.
Qed.

Lemma execute_Success tx_sender c w v w' :
  execute tx_sender c w = (Success v, w') -> body tx_sender c w = Ok v w'.
Proof.
  unfold execute. destruct (body tx_sender c w); intros [=]; congruence.
Qed.

Lemma execute_ok tx_sender c w v w' :
  body tx_sender c w = Ok v w' -> execute tx_sender c w = (Success v, w').
Proof. unfold execute. now intros ->. Qed.

Lemma execute_fails tx_sender c w e w' :
  body tx_sender c w = Err e w' -> execute tx_sender c w = (Failure e, w).
Proof. unfold execute. now intros ->. Qed.

(** *** Computations that leave with an error *)









(** ** Failure atomicity *)



(** The same holds when the call stops on a runtime error. *)
Lemma aborted_call_changes_nothing tx_sender c w w' :
  execute tx_sender c w = (RuntimeError, w') -> w' = w.
Proof.
  unfold execute. destruct (body tx_sender c w); intros [=]; congruence.
Qed.

(** It is the runtime that restores the state: withdraw-stx itself has
    already removed the deposit record and lowered the total when it
    finds the pool short of STX. *)
Lemma withdraw_stx_writes_before_liquidity_check :
  exists w1,
    withdraw_stx "alice" 10000 drained_world
    = Err ERR_INSUFFICIENT_LIQUIDITY w1
    /\ deposits (pool_of w1) !! "alice" = None
    /\ total_stx_deposits (pool_of w1) = 0
    /\ deposits (pool_of drained_world) !! "alice"
       = Some (mk_deposit 10000 0).
Proof. eexists. repeat split; vm_compute; reflexivity. Qed.

(** ** Totals and records agree *)

Lemma folded_debt_settled w b :
  b_last_accrued b = 0 -> folded_debt w b = b_amount b.
Proof.
  intros E. unfold folded_debt, eval.
  rewrite calculate_interest_eq, E. cbn. lia.
Qed.

(** C4. After any history of the pool from its deployment, the deposit
    amounts add up to total-stx-deposits, the collateral amounts add up to
    total-sbtc-collateral, and the borrow records, each taken with the
    interest calculate-interest gives on it now, add up to at most
    total-stx-borrows. *)
Theorem totals_match_records (c0 : chain) (es : list event) :
  let w := run es (initial_world c0) in
  sum_of d_amount (deposits (pool_of w)) = total_stx_deposits (pool_of w)
  /\ sum_of id (collateral (pool_of w)) = total_sbtc_collateral (pool_of w)
  /\ sum_of (folded_debt w) (borrows (pool_of w))
     <= total_stx_borrows (pool_of w).
Proof.
  intros w.
  destruct (run_consistent es (initial_world c0) initial_pool_consistent)
    as [Hd Hc Hb _ _ _ Ha].
  fold w in Hd, Hc, Hb, Ha.
  repeat split; [exact Hd | exact Hc |].
  rewrite (sum_of_ext (folded_debt w) b_amount).
  - rewrite Hb. lia.
  - intros u b Hu. apply folded_debt_settled. eauto.
Qed.

(** ** The yield index *)

Lemma body_keeps_yield_index tx_sender c w v w' :
  body tx_sender c w = Ok v w' ->
  cumulative_yield_bips (pool_of w') = cumulative_yield_bips (pool_of w).
Proof.
  destruct c; cbn;
    unfold deposit_stx, withdraw_stx, borrow_stx, repay, liquidate,
      set_paused, set_admin, set_params, set_sbtc_token;
    intros H; inv_call; subst; reflexivity.
Qed.

Lemma step_yield_index w e :
  cumulative_yield_bips (pool_of w)
  <= cumulative_yield_bips (pool_of (step w e)).
Proof.
  destruct e as [who c|c']; cbn; [|lia].
  unfold execute. destruct (body who c w) eqn:E; cbn; try lia.
  rewrite (body_keeps_yield_index _ _ _ _ _ E). lia.
Qed.

(** C5. Along any history of the pool from its deployment, whether the
    calls in it succeed or fail, no step lowers cumulative-yield-bips. *)
Theorem yield_index_never_decreases
    (c0 : chain) (es : list event) (e : event) :
  let w := run es (initial_world c0) in
  cumulative_yield_bips (pool_of w)
  <= cumulative_yield_bips (pool_of (step w e)).
Proof. intros w. apply step_yield_index. Qed.

(** The accrual arithmetic only ever adds to the index, whatever the
    clock reads. *)
Lemma accrue_interest_at_yield_index now w v w' :
  accrue_interest_at now w = Ok v w' ->
  cumulative_yield_bips (pool_of w)
  <= cumulative_yield_bips (pool_of w').
Proof.
  unfold accrue_interest_at. intros H.
  inv_ok; subst; cbn; first [apply N.le_add_r | reflexivity].
Qed.

(** ** The constant clock *)

Lemma get_debt_eq user w :
  consistent (pool_of w) ->
  get_debt user w
  = Ok (default 0 (b_amount <$> borrows (pool_of w) !! user)) w.
Proof.
  intros [_ _ Hb Hr _ _ Ha]. unfold get_debt, bind, var_get, unwrap_panic.
  rewrite calculate_interest_eq.
  destruct (borrows (pool_of w) !! user) as [b|] eqn:Hu; cbn.
  - rewrite (Ha _ _ Hu). cbn.
    pose proof (sum_of_lookup_le b_amount _ _ _ Hu) as Hle.
    unfold uadd. rewrite N.add_0_r.
    destruct (N.leb_spec (b_amount b) UINT_MAX); [reflexivity|lia].
  - reflexivity.
Qed.

(** After any history a borrow record is worth what get-debt reports
    for its account. *)
Lemma folded_debt_get_debt c0 es user b :
  let w := run es (initial_world c0) in
  borrows (pool_of w) !! user = Some b ->
  get_debt user w = Ok (folded_debt w b) w.
Proof.
  intros w Hu.
  pose proof (run_consistent es (initial_world c0) initial_pool_consistent)
    as Hw.
  fold w in Hw. rewrite (get_debt_eq _ _ Hw), Hu. cbn.
  now rewrite folded_debt_settled by eauto using cons_accrued.
Qed.

(** C10. get-current-time is the constant 0.  Hence after any history of
    the pool from its deployment and for every account: calculate-interest
    on the account's borrow record gives 0, accrue-interest completes and
    leaves total-stx-borrows and cumulative-yield-bips (indeed the whole
    state) as they are, and get-debt returns the stored borrow amount, or
    0 without a record. *)
Theorem constant_clock_accrues_nothing
    (c0 : chain) (es : list event) (user : principal) :
  let w := run es (initial_world c0) in
  let record := borrows (pool_of w) !! user in
  get_current_time = 0
  /\ (forall amount,
        calculate_interest amount
          (default get_current_time (b_last_accrued <$> record)) w
        = Ok 0 w)
  /\ accrue_interest w = Ok true w
  /\ get_debt user w = Ok (default 0 (b_amount <$> record)) w.
Proof.
  intros w record.
  pose proof (run_consistent es (initial_world c0) initial_pool_consistent)
    as Hw.
  fold w in Hw. repeat split.
  - intros amount. rewrite calculate_interest_eq.
    subst record. destruct (borrows (pool_of w) !! user) as [b|] eqn:Hu; cbn.
    + now rewrite (cons_accrued _ Hw _ _ Hu).
    + reflexivity.
  - rewrite accrue_interest_eq, (cons_clock _ Hw). reflexivity.
  - now apply get_debt_eq.
Qed.

(** ** One year of interest *)


(** ** Deposit and withdraw *)

(** What a successful deposit-stx does. *)
Lemma deposit_stx_Ok who amount w v w' :
  deposit_stx who amount w = Ok v w' ->
  let deposited := default 0 (d_amount <$> deposits (pool_of w) !! who) in
  paused (pool_of w) = false
  /\ last_interest_accrual (pool_of w) = 0
  /\ amount <> 0
  /\ who <> contract_principal
  /\ amount <= balance (stx_balances (chain_of w)) who
  /\ deposited + amount <= UINT_MAX
  /\ total_stx_deposits (pool_of w) + amount <= UINT_MAX
  /\ w' = with_pool
            (fun p =>
               put_total_stx_deposits (total_stx_deposits p + amount)
                 (put_deposits
                    (<[who := mk_deposit (deposited + amount)
                                (cumulative_yield_bips p)]> (deposits p))
                    p))
            (put_stx_balances
               (move amount who contract_principal
                  (stx_balances (chain_of w))) w).
Proof.
  unfold deposit_stx. intros H. inv_call. subst. fields.
  repeat split; try assumption.
  now apply negb_true_iff.
Qed.

(** C8. Whoever the account and whatever the state, once deposit-stx of
    1000 has succeeded, withdraw-stx of 1000 called right after it
    succeeds too (the pool holds what was just paid in), finds a pending
    yield of 0, pays exactly 1000 back to the depositor, and brings
    total-stx-deposits back to what it was before the deposit. *)
Theorem deposit_withdraw_round_trip
    (who : principal) (w w1 : world) (v : bool) :
  execute who (DepositStx 1000) w = (Success v, w1) ->
  exists w2,
    execute who (WithdrawStx 1000) w1 = (Success true, w2)
    /\ eval (get_pending_yield who) w1 = Some 0
    /\ balance (stx_balances (chain_of w2)) who
       = balance (stx_balances (chain_of w1)) who + 1000
    /\ balance (stx_balances (chain_of w2)) who
       = balance (stx_balances (chain_of w)) who
    /\ total_stx_deposits (pool_of w2) = total_stx_deposits (pool_of w).
Proof.
  intros H. apply execute_Success, deposit_stx_Ok in H. cbv zeta in H.
  destruct H as (Hp & Hl & _ & Hne & Hbal & Hdep & Hmax & ->).
  set (deposited := default 0 (d_amount <$> deposits (pool_of w) !! who))
    in *.
  set (m := stx_balances (chain_of w)) in *.
  assert (Hpaid : balance (move 1000 who contract_principal m)
                    contract_principal
                  = balance m contract_principal + 1000)
    by now apply balance_move_recipient.
  assert (Hleft : balance (move 1000 who contract_principal m) who
                  = balance m who - 1000)
    by now apply balance_move_sender.
  assert (Hyield :
    get_pending_yield who
      (with_pool
         (fun p =>
            put_total_stx_deposits (total_stx_deposits p + 1000)
              (put_deposits
                 (<[who := mk_deposit (deposited + 1000)
                             (cumulative_yield_bips p)]> (deposits p)) p))
         (put_stx_balances (move 1000 who contract_principal m) w))
    = Ok 0
        (with_pool
           (fun p =>
              put_total_stx_deposits (total_stx_deposits p + 1000)
                (put_deposits
                   (<[who := mk_deposit (deposited + 1000)
                               (cumulative_yield_bips p)]> (deposits p)) p))
           (put_stx_balances (move 1000 who contract_principal m) w))).
  { rewrite get_pending_yield_ok; fields; rewrite lookup_insert_eq; fields;
      cbv [id].
    - now rewrite N.sub_diag, N.mul_0_r.
    - apply N.le_refl.
    - rewrite N.sub_diag, N.mul_0_r. rewrite UINT_MAX_eq. lia. }
  unfold eval. rewrite Hyield.
  cut (exists w2,
    body who (WithdrawStx 1000)
      (with_pool
         (fun p =>
            put_total_stx_deposits (total_stx_deposits p + 1000)
              (put_deposits
                 (<[who := mk_deposit (deposited + 1000)
                             (cumulative_yield_bips p)]> (deposits p)) p))
         (put_stx_balances (move 1000 who contract_principal m) w))
    = Ok true w2
    /\ balance (stx_balances (chain_of w2)) who = balance m who
    /\ total_stx_deposits (pool_of w2) = total_stx_deposits (pool_of w)).
  { intros (w2 & Hrun & Hb & Ht). exists w2. fields.
    rewrite (execute_ok _ _ _ _ _ Hrun), Hb, Ht, Hleft.
    repeat split. lia. }
  cbn [body]. unfold withdraw_stx.
  fwd. fields. rewrite lookup_insert_eq. cbn [unwrap_some].
  fwd.
  erewrite bind_eval by (apply unwrap_panic_ok, accrue_interest_ok; fields;
                         exact Hl).
  erewrite bind_eval by (apply unwrap_panic_ok; exact Hyield).
  assert (Hback :
    balance
      (move (1000 + 0) contract_principal who
         (move 1000 who contract_principal m)) who
    = balance m who).
  { rewrite balance_move_recipient by congruence. rewrite Hleft. lia. }
  fwd. fields.
  match goal with |- context [if ?c then _ else _] => destruct c end;
    fwd; unfold get_contract_balance, stx_get_balance; fwd;
    (eexists; split; [reflexivity|]); fields;
    (split; [exact Hback|lia]).
Qed.

(** ** Pending yield on a second deposit *)


(** In the same state withdraw-stx does pay the pending yield: Alice gets
    her 100 STX and the 5 STX of yield. *)
Lemma withdraw_stx_pays_pending_yield :
  exists w',
    execute "alice" (WithdrawStx 100) yield_pending_world
    = (Success true, w')
    /\ balance (stx_balances (chain_of w')) "alice" = 155.
Proof. eexists. split; vm_compute; reflexivity. Qed.

(** Whatever the state, a successful deposit-stx takes the deposited
    amount from the sender, pays nothing back, and leaves the sender with
    no pending yield. *)
Lemma deposit_stx_settles_nothing who amount w v w' :
  execute who (DepositStx amount) w = (Success v, w') ->
  balance (stx_balances (chain_of w')) who
  = balance (stx_balances (chain_of w)) who - amount
  /\ eval (get_pending_yield who) w' = Some 0.
Proof.
  intros H. apply execute_Success, deposit_stx_Ok in H. cbv zeta in H.
  destruct H as (_ & _ & _ & Hne & _ & _ & _ & ->). fields. split.
  - now apply balance_move_sender.
  - unfold eval.
    rewrite get_pending_yield_ok; fields; rewrite lookup_insert_eq; fields;
      cbv [id].
    + now rewrite N.sub_diag, N.mul_0_r.
    + apply N.le_refl.
    + rewrite N.sub_diag, N.mul_0_r, UINT_MAX_eq. lia.
Qed.

(** ** Which entry points run the accrual *)



(** ** The borrow limit *)

Lemma get_debt_Some user w owed :
  eval (get_debt user) w = Some owed ->
  default 0 (b_amount <$> borrows (pool_of w) !! user) = owed
  /\ default get_current_time (b_last_accrued <$> borrows (pool_of w) !! user)
     = 0
  /\ owed <= UINT_MAX.
Proof.
  unfold eval. destruct (get_debt user w) as [a w1| |] eqn:H; [|easy|easy].
  intros [= ->]. unfold get_debt in H. inv_call. subst. lia.
Qed.

(** C6. An account without debt whose collateral, already posted plus
    newly posted, comes to 10, with the oracle at 100 and the LTV at 70
    percent (7000 basis points), can borrow at most 700: in a pool that
    is not paused and holds the STX, with the account holding the sBTC
    it posts, borrow-stx of 700 succeeds, and borrow-stx of 701, like any
    larger request, fails with ERR_EXCEEDED_MAX_BORROW. *)
Theorem borrow_limit_boundary
    (who : principal) (w : world) (collateral_amount : N) :
  paused (pool_of w) = false ->
  last_interest_accrual (pool_of w) = 0 ->
  ltv_percentage (pool_of w) = 70 ->
  oracle_reply (chain_of w) = ok 100 ->
  default 0 (collateral (pool_of w) !! who) + collateral_amount = 10 ->
  eval (get_debt who) w = Some 0 ->
  who <> contract_principal ->
  collateral_amount <= balance (sbtc_balances (chain_of w)) who ->
  700 <= balance (stx_balances (chain_of w)) contract_principal ->
  total_stx_borrows (pool_of w) + 700 <= UINT_MAX ->
  total_sbtc_collateral (pool_of w) + collateral_amount <= UINT_MAX ->
  (exists w',
     execute who (BorrowStx collateral_amount 700) w = (Success true, w')
     /\ borrows (pool_of w') !! who = Some (mk_borrow 700 0)
     /\ collateral (pool_of w') !! who = Some 10)
  /\ execute who (BorrowStx collateral_amount 701) w
     = (Failure ERR_EXCEEDED_MAX_BORROW, w)
  /\ (forall amount_stx,
        700 < amount_stx <= UINT_MAX ->
        execute who (BorrowStx collateral_amount amount_stx) w
        = (Failure ERR_EXCEEDED_MAX_BORROW, w)).
Proof.
  intros Hp Hl Hltv Hprice Hcoll Hdebt Hne Hsbtc Hstx Hmaxb Hmaxc.
  apply get_debt_Some in Hdebt. destruct Hdebt as (Hamt & Hacc & _).
  assert (Hposted :
    (0 <? collateral_amount)
    || (0 <? default 0 (collateral (pool_of w) !! who)) = true).
  { apply orb_true_iff. rewrite !N.ltb_lt. lia. }
  assert (Hlimit : forall amount_stx,
    0 < amount_stx <= UINT_MAX ->
    borrow_stx who collateral_amount amount_stx w
    = (asserts (amount_stx <=? 700) ERR_EXCEEDED_MAX_BORROW ;;
       held <- get_contract_balance ;;
       asserts (amount_stx <=? held) ERR_INSUFFICIENT_LIQUIDITY ;;
       (if 0 <? collateral_amount then
          unwrap
            (MockSbtc.transfer who collateral_amount who contract_principal)
            ERR_INVALID_SBTC_CONTRACT
        else ret true) ;;
       unwrap
         (stx_transfer contract_principal amount_stx contract_principal who)
         1 ;;
       var_set (fun p => put_collateral (<[who := 10]> (collateral p)) p) ;;
       var_set (fun p =>
         put_borrows
           (<[who := mk_borrow amount_stx get_current_time]> (borrows p))
           p) ;;
       total <- var_get total_stx_borrows ;;
       new_total <- uadd total amount_stx ;;
       var_set (put_total_stx_borrows new_total) ;;
       (if 0 <? collateral_amount then
          held_collateral <- var_get total_sbtc_collateral ;;
          new_collateral <- uadd held_collateral collateral_amount ;;
          var_set (put_total_sbtc_collateral new_collateral)
        else ret tt) ;;
       ret true) w).
  { intros amount_stx Hamount. unfold borrow_stx. fwd.
    erewrite bind_eval by (apply unwrap_panic_ok, accrue_interest_ok, Hl).
    fwd. rewrite Hcoll.
    erewrite bind_eval by
      (apply unwrap_panic_ok; unfold get_sbtc_stx_price; rewrite Hprice;
       reflexivity).
    fwd. rewrite Hltv, Hacc, Hamt.
    erewrite bind_eval by (apply unwrap_panic_ok, calculate_interest_ok).
    fwd. change (10 * 100 * 70 / 100) with 700.
    replace (0 + 0 + amount_stx) with amount_stx by lia.
    reflexivity. }
  assert (Hover : forall amount_stx,
    700 < amount_stx <= UINT_MAX ->
    execute who (BorrowStx collateral_amount amount_stx) w
    = (Failure ERR_EXCEEDED_MAX_BORROW, w)).
  { intros amount_stx Hamount.
    apply execute_fails with (w' := w). cbn [body].
    rewrite Hlimit by lia.
    apply bind_fails, asserts_fails, N.leb_gt. lia. }
  split; [|split].
  - cut (exists w',
      body who (BorrowStx collateral_amount 700) w = Ok true w'
      /\ borrows (pool_of w') !! who = Some (mk_borrow 700 0)
      /\ collateral (pool_of w') !! who = Some 10).
    { intros (w' & Hrun & Hrest). exists w'.
      now rewrite (execute_ok _ _ _ _ _ Hrun). }
    cbn [body]. rewrite Hlimit by (rewrite UINT_MAX_eq; lia).
    fwd. unfold get_contract_balance, stx_get_balance. fwd.
    destruct (N.ltb_spec 0 collateral_amount).
    + erewrite bind_eval by
        (apply unwrap_ok, sbtc_transfer_ok; first [lia | assumption]).
      fwd. eexists. split; [reflexivity|]. fields.
      now rewrite !lookup_insert_eq.
    + fwd. eexists. split; [reflexivity|]. fields.
      now rewrite !lookup_insert_eq.
  - apply Hover. rewrite UINT_MAX_eq. lia.
  - exact Hover.
Qed.

(** ** The liquidation threshold *)



(** ** The theorems at sample states *)

(** Decide a closed statement on numbers or names by evaluation. *)
Ltac evaluate := vm_compute; first [reflexivity | discriminate].


Lemma deposit_withdraw_round_trip_witness :
  execute "alice" (DepositStx 1000) (initial_world fresh_chain)
  = (Success true,
     snd (execute "alice" (DepositStx 1000) (initial_world fresh_chain)))
  /\ exists w2,
       execute "alice" (WithdrawStx 1000)
         (snd (execute "alice" (DepositStx 1000)
                 (initial_world fresh_chain)))
       = (Success true, w2)
       /\ balance (stx_balances (chain_of w2)) "alice" = 20000
       /\ total_stx_deposits (pool_of w2) = 0.
Proof.
  assert (H : execute "alice" (DepositStx 1000) (initial_world fresh_chain)
              = (Success true,
                 snd (execute "alice" (DepositStx 1000)
                        (initial_world fresh_chain))))
    by (vm_compute; reflexivity).
  split; [exact H|].
  destruct (deposit_withdraw_round_trip "alice" (initial_world fresh_chain)
              _ true H) as (w2 & Hrun & _ & _ & Hb & Ht).
  exists w2. split; [exact Hrun|]. split; [exact Hb|exact Ht].
Defined.

Lemma borrow_limit_boundary_witness :
  default 0 (collateral (pool_of funded_world) !! "bob") + 10 = 10
  /\ eval (get_debt "bob") funded_world = Some 0
  /\ (exists w',
        execute "bob" (BorrowStx 10 700) funded_world = (Success true, w')
        /\ borrows (pool_of w') !! "bob" = Some (mk_borrow 700 0)
        /\ collateral (pool_of w') !! "bob" = Some 10)
  /\ execute "bob" (BorrowStx 10 701) funded_world
     = (Failure ERR_EXCEEDED_MAX_BORROW, funded_world).
Proof.
  split; [reflexivity|]. split; [reflexivity|].
  destruct (borrow_limit_boundary "bob" funded_world 10)
    as (Hok & Hfail & _).
  - reflexivity.
  - reflexivity.
  - reflexivity.
  - reflexivity.
  - reflexivity.
  - reflexivity.
  - discriminate.
  - evaluate.
  - evaluate.
  - evaluate.
  - evaluate.
  - split; [exact Hok|exact Hfail].
Defined.



(** * Further properties of the contracts *)

(** Turn the boolean tests a call has passed into propositions. *)
Ltac passed :=
  repeat match goal with
    | H : (_ <? _) = true |- _ => apply N.ltb_lt in H
    | H : (_ <=? _) = true |- _ => apply N.leb_le in H
    | H : (_ <? _) = false |- _ => apply N.ltb_ge in H
    | H : (_ <=? _) = false |- _ => apply N.leb_gt in H
    | H : (_ =? _) = true |- _ => apply N.eqb_eq in H
    | H : (_ =? _) = false |- _ => apply N.eqb_neq in H
    | H : negb _ = true |- _ => apply negb_true_iff in H
    | H : _ || _ = true |- _ => apply orb_true_iff in H
    end.

(** *** Queries on an account without records *)

Lemma get_debt_none user w :
  borrows (pool_of w) !! user = None -> get_debt user w = Ok 0 w.
Proof.
  intros Hnone. unfold get_debt. fwd. rewrite Hnone.
  cbn [fmap option_fmap option_map default].
  erewrite bind_eval by (apply unwrap_panic_ok, calculate_interest_ok).
  reflexivity.
Qed.

Lemma get_collateral_none user w :
  collateral (pool_of w) !! user = None -> get_collateral user w = Ok 0 w.
Proof. intros Hnone. unfold get_collateral. fwd. now rewrite Hnone. Qed.

Lemma get_pending_yield_none user w :
  deposits (pool_of w) !! user = None -> get_pending_yield user w = Ok 0 w.
Proof.
  intros Hnone.
  rewrite get_pending_yield_ok; rewrite Hnone; cbn; try lia.
  reflexivity.
Qed.

(** ** Settings and who may change them *)

Lemma body_within_bounds tx_sender c w v w' :
  body tx_sender c w = Ok v w' ->
  within_bounds (pool_of w) -> within_bounds (pool_of w').
Proof.
  unfold within_bounds.
  destruct c; cbn [body];
    unfold deposit_stx, withdraw_stx, borrow_stx, repay, liquidate,
      set_paused, set_admin, set_params, set_sbtc_token;
    intros H Hb; inv_call; subst; fields; try exact Hb.
  repeat match goal with
    | H : (_ <=? _) = true |- _ => apply N.leb_le in H
    end.
  auto.
Qed.

Lemma step_within_bounds w e :
  within_bounds (pool_of w) -> within_bounds (pool_of (step w e)).
Proof.
  destruct e as [who c|c']; cbn; [|auto].
  unfold execute. destruct (body who c w) eqn:E; cbn; auto.
  eauto using body_within_bounds.
Qed.

(** X1. After any history of the pool from its deployment the risk
    parameters are within the bounds of set-params: LTV at most 90,
    interest rate at most 100, liquidation threshold at most 150 and
    liquidation penalty at most 30 percent. *)
Theorem risk_parameters_stay_bounded (c0 : chain) (es : list event) :
  within_bounds (pool_of (run es (initial_world c0))).
Proof.
  unfold run.
  assert (H0 : within_bounds (pool_of (initial_world c0))).
  { unfold within_bounds. cbn. repeat split; evaluate. }
  revert H0. generalize (initial_world c0).
  induction es as [|e es IH]; intros w Hw; cbn; [exact Hw|].
  apply IH, step_within_bounds, Hw.
Qed.

(** X2. A call by anyone but the admin never changes the admin, the pause
    flag, a risk parameter or the token reference, whatever function is
    called and whatever the state; if the function is an admin function
    the call is refused with ERR_UNAUTHORIZED. *)
Theorem only_admin_changes_settings
    (tx_sender : principal) (c : call) (w : world) :
  tx_sender <> admin (pool_of w) ->
  settings (pool_of (snd (execute tx_sender c w))) = settings (pool_of w)
  /\ (moves_funds c = false ->
      execute tx_sender c w = (Failure ERR_UNAUTHORIZED, w)).
Proof.
  intros Hna. split.
  - unfold execute. destruct (body tx_sender c w) as [v w'| |] eqn:E;
      [|reflexivity|reflexivity].
    cbn [snd]. unfold settings.
    destruct c; cbn [body] in E;
      unfold deposit_stx, withdraw_stx, borrow_stx, repay, liquidate,
        set_paused, set_admin, set_params, set_sbtc_token in E;
      inv_call; subst; fields; try reflexivity;
      match goal with
      | H : bool_decide _ = true |- _ =>
          apply bool_decide_eq_true_1 in H; contradiction
      end.
  - intros Hc. apply execute_fails with (w' := w).
    destruct c; try discriminate; cbn [body];
      unfold set_paused, set_admin, set_params, set_sbtc_token; fwd;
      apply bind_fails, asserts_fails, bool_decide_eq_false_2, Hna.
Qed.


(** ** What the entry points do to balances and records *)

(** X4. The read-only queries on an account without records: get-debt,
    get-collateral and get-pending-yield all answer (ok u0), in every
    state, and never stop on a runtime error. *)
Theorem queries_on_unknown_account (user : principal) (w : world) :
  (borrows (pool_of w) !! user = None -> get_debt user w = Ok 0 w)
  /\ (collateral (pool_of w) !! user = None ->
      get_collateral user w = Ok 0 w)
  /\ (deposits (pool_of w) !! user = None ->
      get_pending_yield user w = Ok 0 w).
Proof.
  split; [apply get_debt_none|].
  split; [apply get_collateral_none | apply get_pending_yield_none].
Qed.

Lemma get_pending_yield_value user w y w1 :
  get_pending_yield user w = Ok y w1 ->
  eval (get_pending_yield user) w = Some y /\ w1 = w.
Proof.
  intros H. unfold eval. rewrite H. split; [reflexivity|].
  now apply get_pending_yield_Ok in H.
Qed.

(** Decompose a successful call, keeping pending yield as a value. *)
Ltac inv_paid :=
  repeat first
    [ inv_ok_step
    | match goal with
      | H : accrue_interest _ = Ok _ _ |- _ =>
          apply accrue_interest_Ok in H; destruct H as [? ?]
      | H : calculate_interest _ _ _ = Ok _ _ |- _ =>
          apply calculate_interest_Ok in H; destruct H as (? & ? & ?)
      | H : get_pending_yield _ _ = Ok _ _ |- _ =>
          apply get_pending_yield_value in H; destruct H as [? ?]
      end ].

(** What a successful withdraw-stx does. *)
Lemma withdraw_stx_Ok who amount w v w' :
  withdraw_stx who amount w = Ok v w' ->
  exists d pending,
    deposits (pool_of w) !! who = Some d
    /\ eval (get_pending_yield who) w = Some pending
    /\ 0 < amount <= d_amount d
    /\ balance (stx_balances (chain_of w')) who
       = balance (stx_balances (chain_of w)) who + (amount + pending)
    /\ balance (stx_balances (chain_of w')) contract_principal
       = balance (stx_balances (chain_of w)) contract_principal
         - (amount + pending)
    /\ total_stx_deposits (pool_of w')
       = total_stx_deposits (pool_of w) - amount
    /\ deposits (pool_of w') !! who
       = (if d_amount d - amount =? 0 then None
          else Some (mk_deposit (d_amount d - amount)
                       (cumulative_yield_bips (pool_of w)))).
Proof.
  intros H.
  unfold withdraw_stx in H. inv_paid; subst; fields;
    match goal with
    | E : deposits (pool_of w) !! who = Some ?d,
      Y : eval (get_pending_yield who) w = Some ?y |- _ =>
        exists d, y; split; [exact E|]; split; [exact Y|]
    end;
    match goal with
    | E : (_ =? 0) = _ |- _ => rewrite E
    end;
    passed;
    (split; [lia|]);
    rewrite balance_move_recipient, balance_move_sender by assumption;
    repeat split; first [apply lookup_delete_eq | apply lookup_insert_eq].
Qed.

(** X5. A successful withdraw-stx pays the caller the amount asked for
    plus the yield get-pending-yield reported for the whole deposit, out
    of the pool's STX; it lowers total-stx-deposits by the amount alone,
    and leaves a record for the remainder at the current index, or no
    record when everything was withdrawn. *)
Theorem withdraw_stx_pays_deposit_and_yield
    (who : principal) (amount : N) (w w' : world) (v : bool) :
  execute who (WithdrawStx amount) w = (Success v, w') ->
  exists d pending,
    deposits (pool_of w) !! who = Some d
    /\ eval (get_pending_yield who) w = Some pending
    /\ 0 < amount <= d_amount d
    /\ balance (stx_balances (chain_of w')) who
       = balance (stx_balances (chain_of w)) who + (amount + pending)
    /\ balance (stx_balances (chain_of w')) contract_principal
       = balance (stx_balances (chain_of w)) contract_principal
         - (amount + pending)
    /\ total_stx_deposits (pool_of w')
       = total_stx_deposits (pool_of w) - amount
    /\ deposits (pool_of w') !! who
       = (if d_amount d - amount =? 0 then None
          else Some (mk_deposit (d_amount d - amount)
                       (cumulative_yield_bips (pool_of w)))).
Proof.
  intros H. apply execute_Success in H. cbn [body] in H.
  exact (withdraw_stx_Ok who amount w v w' H).
Qed.

(** X6. Deposits add up: two deposits in a row by one account leave a
    single record holding what was there before plus both amounts, at
    the current yield index; total-stx-deposits and the pool's STX grow,
    and the depositor's STX shrink, by the sum of the two. *)
Theorem deposits_accumulate
    (who : principal) (a b : N) (w w1 w2 : world) (v1 v2 : bool) :
  execute who (DepositStx a) w = (Success v1, w1) ->
  execute who (DepositStx b) w1 = (Success v2, w2) ->
  deposits (pool_of w2) !! who
  = Some (mk_deposit
            (default 0 (d_amount <$> deposits (pool_of w) !! who) + a + b)
            (cumulative_yield_bips (pool_of w)))
  /\ total_stx_deposits (pool_of w2) = total_stx_deposits (pool_of w) + a + b
  /\ balance (stx_balances (chain_of w2)) who
     = balance (stx_balances (chain_of w)) who - (a + b)
  /\ balance (stx_balances (chain_of w2)) contract_principal
     = balance (stx_balances (chain_of w)) contract_principal + (a + b).
Proof.
  intros H1 H2.
  apply execute_Success, deposit_stx_Ok in H1. cbv zeta in H1.
  destruct H1 as (_ & _ & _ & Hne & Hbal & _ & _ & ->).
  apply execute_Success, deposit_stx_Ok in H2. cbv zeta in H2.
  destruct H2 as (_ & _ & _ & _ & Hbal2 & _ & _ & ->).
  fields. rewrite lookup_insert_eq in *. fields.
  rewrite !lookup_insert_eq.
  rewrite !balance_move_sender, !balance_move_recipient in * by assumption.
  repeat split; lia.
Qed.

(** X7. withdraw-stx has one error code for every refusal of its own:
    without a deposit record, and in a pool that is not paused with an
    amount of zero or one above the recorded deposit, it fails with
    ERR_INVALID_WITHDRAW_AMOUNT (u100) and changes nothing. *)
Theorem withdraw_stx_refusals (who : principal) (amount : N) (w : world) :
  deposits (pool_of w) !! who = None
  \/ (paused (pool_of w) = false
      /\ (amount = 0
          \/ default 0 (d_amount <$> deposits (pool_of w) !! who) < amount)) ->
  execute who (WithdrawStx amount) w
  = (Failure ERR_INVALID_WITHDRAW_AMOUNT, w).
Proof.
  intros Hcase. apply execute_fails with (w' := w). cbn [body].
  unfold withdraw_stx. fwd.
  destruct (deposits (pool_of w) !! who) as [d|] eqn:Hd; cbn [unwrap_some].
  2:{ reflexivity. }
  destruct Hcase as [|[Hp Hamount]]; [discriminate|].
  fwd. cbn in Hamount. destruct Hamount as [->|Hlt].
  - reflexivity.
  - destruct (N.ltb_spec 0 amount); [|reflexivity].
    fwd. apply bind_fails, asserts_fails, N.leb_gt, Hlt.
Qed.

(** What a successful borrow-stx does. *)
Lemma borrow_stx_Ok who c amount w v w' :
  borrow_stx who c amount w = Ok v w' ->
  let posted := default 0 (collateral (pool_of w) !! who) + c in
  let debt := default 0 (b_amount <$> borrows (pool_of w) !! who) + amount in
  exists price,
    oracle_reply (chain_of w) = ok price
    /\ 0 < price /\ 0 < amount /\ 0 < posted
    /\ paused (pool_of w) = false
    /\ who <> contract_principal
    /\ debt <= posted * price * ltv_percentage (pool_of w) / 100
    /\ debt <= UINT_MAX
    /\ c <= balance (sbtc_balances (chain_of w)) who
    /\ amount <= balance (stx_balances (chain_of w)) contract_principal
    /\ w' = with_pool
              (fun p =>
                 put_total_sbtc_collateral (total_sbtc_collateral p + c)
                   (put_total_stx_borrows (total_stx_borrows p + amount)
                      (put_borrows
                         (<[who := mk_borrow debt 0]> (borrows p))
                         (put_collateral
                            (<[who := posted]> (collateral p)) p))))
              (put_stx_balances
                 (move amount contract_principal who
                    (stx_balances (chain_of w)))
                 (put_sbtc_balances
                    (if 0 <? c
                     then move c who contract_principal
                            (sbtc_balances (chain_of w))
                     else sbtc_balances (chain_of w)) w)).
Proof.
  unfold borrow_stx. intros H.
  inv_call; subst; fields; passed;
    match goal with
    | E : oracle_reply _ = ok ?p |- _ => exists p
    end;
    rewrite ?N.add_0_r in *;
    repeat match goal with
      | |- _ /\ _ => split
      end; try assumption; try lia; try congruence.
  - reflexivity.
  - assert (c = 0) as -> by lia.
    unfold with_pool, put_stx_balances, put_sbtc_balances. fields. f_equal.
    unfold put_total_sbtc_collateral, put_total_stx_borrows, put_borrows,
      put_collateral.
    fields. now rewrite !N.add_0_r.
Qed.

(** X8. borrow-stx never lends above the limit: after a successful call
    the oracle price is positive, the account's recorded debt is what it
    owed before plus the amount borrowed, its recorded collateral is what
    it had posted before plus what it posts now, and the debt is at most
    collateral times price times the LTV percentage over 100. *)
Theorem borrow_stx_respects_limit
    (who : principal) (c amount : N) (w w' : world) (v : bool) :
  execute who (BorrowStx c amount) w = (Success v, w') ->
  exists price debt posted,
    oracle_reply (chain_of w) = ok price
    /\ 0 < price
    /\ borrows (pool_of w') !! who = Some (mk_borrow debt 0)
    /\ collateral (pool_of w') !! who = Some posted
    /\ debt = default 0 (b_amount <$> borrows (pool_of w) !! who) + amount
    /\ posted = default 0 (collateral (pool_of w) !! who) + c
    /\ 0 < posted
    /\ debt <= posted * price * ltv_percentage (pool_of w') / 100.
Proof.
  intros H. apply execute_Success, borrow_stx_Ok in H. cbv zeta in H.
  destruct H as (price & Ho & Hp & _ & Hposted & _ & _ & Hlim & _ & _ & _
                 & ->).
  exists price,
    (default 0 (b_amount <$> borrows (pool_of w) !! who) + amount),
    (default 0 (collateral (pool_of w) !! who) + c).
  fields. rewrite !lookup_insert_eq.
  repeat split; assumption.
Qed.

(** X9. A successful borrow-stx pays the borrowed STX out of the pool to
    the caller and takes the posted sBTC from the caller into the pool;
    total-stx-borrows grows by the amount borrowed and
    total-sbtc-collateral by the collateral posted. *)
Theorem borrow_stx_moves_funds
    (who : principal) (c amount : N) (w w' : world) (v : bool) :
  execute who (BorrowStx c amount) w = (Success v, w') ->
  balance (stx_balances (chain_of w')) who
  = balance (stx_balances (chain_of w)) who + amount
  /\ balance (stx_balances (chain_of w')) contract_principal
     = balance (stx_balances (chain_of w)) contract_principal - amount
  /\ balance (sbtc_balances (chain_of w')) who
     = balance (sbtc_balances (chain_of w)) who - c
  /\ balance (sbtc_balances (chain_of w')) contract_principal
     = balance (sbtc_balances (chain_of w)) contract_principal + c
  /\ total_stx_borrows (pool_of w') = total_stx_borrows (pool_of w) + amount
  /\ total_sbtc_collateral (pool_of w')
     = total_sbtc_collateral (pool_of w) + c
  /\ total_stx_deposits (pool_of w') = total_stx_deposits (pool_of w).
Proof.
  intros H. apply execute_Success, borrow_stx_Ok in H. cbv zeta in H.
  destruct H as (price & _ & _ & _ & _ & _ & Hne & _ & _ & _ & _ & ->).
  fields.
  rewrite balance_move_recipient, balance_move_sender by congruence.
  destruct (N.ltb_spec 0 c).
  - rewrite balance_move_recipient, balance_move_sender by congruence.
    repeat split.
  - assert (c = 0) as -> by lia. rewrite N.sub_0_r, N.add_0_r.
    repeat split.
Qed.

(** What a successful repay does. *)
Lemma repay_Ok who w v w' :
  repay who w = Ok v w' ->
  exists b,
    let posted := default 0 (collateral (pool_of w) !! who) in
    borrows (pool_of w) !! who = Some b
    /\ paused (pool_of w) = false
    /\ 0 < b_amount b
    /\ b_last_accrued b = 0
    /\ who <> contract_principal
    /\ b_amount b <= balance (stx_balances (chain_of w)) who
    /\ posted <= balance (sbtc_balances (chain_of w)) contract_principal
    /\ b_amount b <= total_stx_borrows (pool_of w)
    /\ posted <= total_sbtc_collateral (pool_of w)
    /\ w' = with_pool
              (fun p =>
                 put_total_sbtc_collateral (total_sbtc_collateral p - posted)
                   (put_total_stx_borrows
                      (total_stx_borrows p - b_amount b)
                      (put_collateral (delete who (collateral p))
                         (put_borrows (delete who (borrows p)) p))))
              (put_sbtc_balances
                 (if 0 <? posted
                  then move posted contract_principal who
                         (sbtc_balances (chain_of w))
                  else sbtc_balances (chain_of w))
                 (put_stx_balances
                    (move (b_amount b) who contract_principal
                       (stx_balances (chain_of w))) w)).
Proof.
  unfold repay. intros H.
  inv_call; subst; fields; passed;
    match goal with
    | E : borrows _ !! _ = Some ?b |- _ => exists b
    end;
    cbv zeta; rewrite ?N.add_0_r in *;
    repeat match goal with
      | |- _ /\ _ => split
      end; try assumption; try lia; try congruence;
    (destruct (N.ltb_spec 0 (default 0 (collateral (pool_of w) !! who)));
     [try lia|try lia]);
    first
      [ reflexivity
      | unfold with_pool, put_stx_balances, put_sbtc_balances; fields;
        reflexivity ].
Qed.

(** What a successful liquidate does. *)
Lemma liquidate_Ok liquidator user w v w' :
  liquidate liquidator user w = Ok v w' ->
  exists b posted price,
    let repay_amount :=
      b_amount b * (100 - liquidation_penalty_percentage (pool_of w)) / 100
    in
    borrows (pool_of w) !! user = Some b
    /\ collateral (pool_of w) !! user = Some posted
    /\ oracle_reply (chain_of w) = ok price
    /\ 0 < price
    /\ paused (pool_of w) = false
    /\ b_last_accrued b = 0
    /\ posted * price * liquidation_threshold_percentage (pool_of w)
       <= b_amount b * 100
    /\ liquidation_penalty_percentage (pool_of w) <= 100
    /\ liquidator <> contract_principal
    /\ 0 < repay_amount <= balance (stx_balances (chain_of w)) liquidator
    /\ 0 < posted
          <= balance (sbtc_balances (chain_of w)) contract_principal
    /\ b_amount b <= total_stx_borrows (pool_of w)
    /\ posted <= total_sbtc_collateral (pool_of w)
    /\ w' = with_pool
              (fun p =>
                 put_total_sbtc_collateral (total_sbtc_collateral p - posted)
                   (put_total_stx_borrows
                      (total_stx_borrows p - b_amount b)
                      (put_collateral (delete user (collateral p))
                         (put_borrows (delete user (borrows p)) p))))
              (put_sbtc_balances
                 (move posted contract_principal liquidator
                    (sbtc_balances (chain_of w)))
                 (put_stx_balances
                    (move repay_amount liquidator contract_principal
                       (stx_balances (chain_of w))) w)).
Proof.
  unfold liquidate. intros H.
  inv_call; subst; fields; passed;
    match goal with
    | E : borrows _ !! _ = Some ?b, C : collateral _ !! _ = Some ?c,
      O : oracle_reply _ = ok ?p |- _ => exists b, c, p
    end;
    cbv zeta; rewrite ?N.add_0_r in *;
    repeat match goal with
      | |- _ /\ _ => split
      end; try assumption; try lia; try congruence; try reflexivity.
  all: apply N.neq_0_lt_0; assumption.
Qed.

(** X10. A successful repay closes the position in full: the caller pays
    exactly the recorded debt in STX and gets back exactly the recorded
    collateral in sBTC, both records are deleted, so that get-debt and
    get-collateral then answer (ok u0), and the two totals go down by the
    same amounts. *)
Theorem repay_closes_position
    (who : principal) (w w' : world) (v : bool) :
  execute who Repay w = (Success v, w') ->
  exists b,
    let posted := default 0 (collateral (pool_of w) !! who) in
    borrows (pool_of w) !! who = Some b
    /\ position (pool_of w') who = (deposits (pool_of w) !! who, None, None)
    /\ get_debt who w' = Ok 0 w'
    /\ get_collateral who w' = Ok 0 w'
    /\ balance (stx_balances (chain_of w')) who
       = balance (stx_balances (chain_of w)) who - b_amount b
    /\ balance (stx_balances (chain_of w')) contract_principal
       = balance (stx_balances (chain_of w)) contract_principal + b_amount b
    /\ balance (sbtc_balances (chain_of w')) who
       = balance (sbtc_balances (chain_of w)) who + posted
    /\ balance (sbtc_balances (chain_of w')) contract_principal
       = balance (sbtc_balances (chain_of w)) contract_principal - posted
    /\ total_stx_borrows (pool_of w')
       = total_stx_borrows (pool_of w) - b_amount b
    /\ total_sbtc_collateral (pool_of w')
       = total_sbtc_collateral (pool_of w) - posted.
Proof.
  intros H. apply execute_Success in H. cbn [body] in H.
  apply repay_Ok in H. destruct H as (b & H). cbv zeta in H.
  destruct H as (Hb & _ & _ & _ & Hne & _ & _ & _ & _ & ->).
  exists b. cbv zeta. split; [exact Hb|].
  assert (Hnb : borrows
            (pool_of
               (with_pool
                  (fun p =>
                     put_total_sbtc_collateral
                       (total_sbtc_collateral p
                        - default 0 (collateral (pool_of w) !! who))
                       (put_total_stx_borrows
                          (total_stx_borrows p - b_amount b)
                          (put_collateral (delete who (collateral p))
                             (put_borrows (delete who (borrows p)) p))))
                  (put_sbtc_balances
                     (if 0 <? default 0 (collateral (pool_of w) !! who)
                      then move (default 0 (collateral (pool_of w) !! who))
                             contract_principal who
                             (sbtc_balances (chain_of w))
                      else sbtc_balances (chain_of w))
                     (put_stx_balances
                        (move (b_amount b) who contract_principal
                           (stx_balances (chain_of w))) w)))) !! who = None)
    by (fields; apply lookup_delete_eq).
  assert (Hnc : collateral
            (pool_of
               (with_pool
                  (fun p =>
                     put_total_sbtc_collateral
                       (total_sbtc_collateral p
                        - default 0 (collateral (pool_of w) !! who))
                       (put_total_stx_borrows
                          (total_stx_borrows p - b_amount b)
                          (put_collateral (delete who (collateral p))
                             (put_borrows (delete who (borrows p)) p))))
                  (put_sbtc_balances
                     (if 0 <? default 0 (collateral (pool_of w) !! who)
                      then move (default 0 (collateral (pool_of w) !! who))
                             contract_principal who
                             (sbtc_balances (chain_of w))
                      else sbtc_balances (chain_of w))
                     (put_stx_balances
                        (move (b_amount b) who contract_principal
                           (stx_balances (chain_of w))) w)))) !! who = None)
    by (fields; apply lookup_delete_eq).
  split; [unfold position; now rewrite Hnb, Hnc|].
  split; [now apply get_debt_none|].
  split; [now apply get_collateral_none|].
  fields.
  rewrite balance_move_recipient, balance_move_sender by congruence.
  destruct (N.ltb_spec 0 (default 0 (collateral (pool_of w) !! who))).
  - rewrite balance_move_recipient, balance_move_sender by congruence.
    repeat split.
  - assert (default 0 (collateral (pool_of w) !! who) = 0) as -> by lia.
    rewrite N.add_0_r, N.sub_0_r. repeat split.
Qed.

(** X11. repay without a borrow record, and liquidate of an account that
    lacks a borrow record or a collateral record, are refused with u100
    and u102 before anything else is looked at, paused or not, and change
    nothing. *)
Theorem missing_position_refusals
    (tx_sender user : principal) (w : world) :
  (borrows (pool_of w) !! tx_sender = None ->
   execute tx_sender Repay w = (Failure ERR_INVALID_WITHDRAW_AMOUNT, w))
  /\ (borrows (pool_of w) !! user = None
      \/ collateral (pool_of w) !! user = None ->
      execute tx_sender (Liquidate user) w
      = (Failure ERR_CANNOT_BE_LIQUIDATED, w)).
Proof.
  split.
  - intros Hb. apply execute_fails with (w' := w). cbn [body].
    unfold repay. fwd. now rewrite Hb.
  - intros Hcase. apply execute_fails with (w' := w). cbn [body].
    unfold liquidate. fwd.
    destruct (borrows (pool_of w) !! user); cbn [unwrap_some];
      [|reflexivity].
    fwd. destruct Hcase as [|Hc]; [discriminate|]. now rewrite Hc.
Qed.

(** X12. What a liquidation costs the pool.  A successful liquidate takes
    from the liquidator the debt less the penalty percentage, rounded
    down, and hands over the whole collateral; the target's borrow and
    collateral records are deleted and total-stx-borrows drops by the
    whole debt.  The pool's STX thus grow by no more than the debt it
    writes off. *)
Theorem liquidate_accounting
    (liquidator user : principal) (w w' : world) (v : bool) :
  execute liquidator (Liquidate user) w = (Success v, w') ->
  exists b posted,
    let paid :=
      b_amount b * (100 - liquidation_penalty_percentage (pool_of w)) / 100
    in
    borrows (pool_of w) !! user = Some b
    /\ collateral (pool_of w) !! user = Some posted
    /\ 0 < paid <= b_amount b
    /\ position (pool_of w') user = (deposits (pool_of w) !! user, None, None)
    /\ balance (stx_balances (chain_of w')) liquidator
       = balance (stx_balances (chain_of w)) liquidator - paid
    /\ balance (stx_balances (chain_of w')) contract_principal
       = balance (stx_balances (chain_of w)) contract_principal + paid
    /\ balance (sbtc_balances (chain_of w')) liquidator
       = balance (sbtc_balances (chain_of w)) liquidator + posted
    /\ balance (sbtc_balances (chain_of w')) contract_principal
       = balance (sbtc_balances (chain_of w)) contract_principal - posted
    /\ total_stx_borrows (pool_of w')
       = total_stx_borrows (pool_of w) - b_amount b
    /\ total_sbtc_collateral (pool_of w')
       = total_sbtc_collateral (pool_of w) - posted.
Proof.
  intros H. apply execute_Success in H. cbn [body] in H.
  apply liquidate_Ok in H. destruct H as (b & posted & price & H).
  cbv zeta in H.
  destruct H as (Hb & Hc & _ & _ & _ & _ & _ & Hpen & Hne & Hpaid & _ & _
                 & _ & ->).
  exists b, posted. cbv zeta. fields.
  split; [exact Hb|]. split; [exact Hc|].
  split.
  { split; [apply Hpaid|].
    apply N.Div0.div_le_upper_bound. nia. }
  split; [unfold position; fields; now rewrite !lookup_delete_eq|].
  rewrite !balance_move_recipient, !balance_move_sender by congruence.
  repeat split.
Qed.

(** X13. Nobody's records are touched by somebody else's call, except a
    liquidation target's: whatever [tx_sender] calls, the deposit, borrow
    and collateral records of any other account, other than the account
    a liquidate call names, are the same afterwards. *)
Theorem other_positions_untouched
    (tx_sender other : principal) (c : call) (w : world) :
  other <> tx_sender ->
  (forall user, c = Liquidate user -> other <> user) ->
  position (pool_of (snd (execute tx_sender c w))) other
  = position (pool_of w) other.
Proof.
  intros Hne Hliq. unfold execute.
  destruct (body tx_sender c w) as [v w'| |] eqn:E;
    [|reflexivity|reflexivity].
  cbn [snd]. unfold position.
  destruct c; cbn [body] in E.
  - apply deposit_stx_Ok in E. cbv zeta in E.
    destruct E as (_ & _ & _ & _ & _ & _ & _ & ->). fields.
    now rewrite lookup_insert_ne by congruence.
  - unfold withdraw_stx in E. inv_call; subst; fields;
      [rewrite lookup_delete_ne by congruence
      |rewrite lookup_insert_ne by congruence]; reflexivity.
  - apply borrow_stx_Ok in E. cbv zeta in E.
    destruct E as (price & _ & _ & _ & _ & _ & _ & _ & _ & _ & _ & ->).
    fields.
    now rewrite !lookup_insert_ne by congruence.
  - apply repay_Ok in E. destruct E as (b & E). cbv zeta in E.
    destruct E as (_ & _ & _ & _ & _ & _ & _ & _ & _ & ->). fields.
    now rewrite !lookup_delete_ne by congruence.
  - apply liquidate_Ok in E. destruct E as (b & posted & price & E).
    cbv zeta in E.
    destruct E as (_ & _ & _ & _ & _ & _ & _ & _ & _ & _ & _ & _ & _ & ->).
    fields. specialize (Hliq user eq_refl).
    now rewrite !lookup_delete_ne by congruence.
  - unfold set_paused in E. inv_call; subst; reflexivity.
  - unfold set_admin in E. inv_call; subst; reflexivity.
  - unfold set_params in E. inv_call; subst; reflexivity.
  - unfold set_sbtc_token in E. inv_call; subst; reflexivity.
Qed.

Lemma balance_move_back amount sender recipient m who :
  sender <> recipient ->
  amount <= balance m sender ->
  balance (move amount recipient sender (move amount sender recipient m)) who
  = balance m who.
Proof.
  intros Hne Hle.
  destruct (decide (who = sender)) as [->|Hs].
  - rewrite balance_move_recipient, balance_move_sender by congruence. lia.
  - destruct (decide (who = recipient)) as [->|Hr].
    + rewrite balance_move_sender, balance_move_recipient by congruence. lia.
    + now rewrite !balance_move_other by congruence.
Qed.

Lemma pool_ext (p q : pool) :
  total_sbtc_collateral p = total_sbtc_collateral q ->
  total_stx_deposits p = total_stx_deposits q ->
  total_stx_borrows p = total_stx_borrows q ->
  last_interest_accrual p = last_interest_accrual q ->
  cumulative_yield_bips p = cumulative_yield_bips q ->
  settings p = settings q ->
  collateral p = collateral q ->
  deposits p = deposits q ->
  borrows p = borrows q ->
  p = q.
Proof.
  destruct p, q. unfold settings. cbn.
  intros -> -> -> -> -> [= -> -> -> -> -> -> ->] -> -> ->. reflexivity.
Qed.

(** X14. Borrow and repay undo each other.  For an account without a
    position, once borrow-stx has succeeded, repay called right after it
    succeeds too and puts back every data variable and map of the pool
    and every STX and sBTC balance exactly as they were before the
    borrow. *)
Theorem borrow_repay_round_trip
    (who : principal) (c amount : N) (w w1 : world) (v : bool) :
  borrows (pool_of w) !! who = None ->
  collateral (pool_of w) !! who = None ->
  execute who (BorrowStx c amount) w = (Success v, w1) ->
  exists w2,
    execute who Repay w1 = (Success true, w2)
    /\ pool_of w2 = pool_of w
    /\ (forall p,
          balance (stx_balances (chain_of w2)) p
          = balance (stx_balances (chain_of w)) p
          /\ balance (sbtc_balances (chain_of w2)) p
             = balance (sbtc_balances (chain_of w)) p).
Proof.
  intros Hb Hc H.
  apply execute_Success, borrow_stx_Ok in H. cbv zeta in H.
  rewrite Hb, Hc in H. cbn [fmap option_fmap option_map default] in H.
  rewrite !N.add_0_l in H.
  destruct H as (price & Ho & Hprice & Hamount & Hposted & Hp & Hne & _
                 & Hmax & Hsbtc & Hstx & ->).
  rewrite (proj2 (N.ltb_lt 0 c) Hposted).
  set (stx1 := move amount contract_principal who (stx_balances (chain_of w))).
  set (sbtc1 := move c who contract_principal (sbtc_balances (chain_of w))).
  assert (Hs1 : balance stx1 who
                = balance (stx_balances (chain_of w)) who + amount)
    by (apply balance_move_recipient; congruence).
  assert (Hs2 : balance sbtc1 contract_principal
                = balance (sbtc_balances (chain_of w)) contract_principal + c)
    by (apply balance_move_recipient; congruence).
  cut (exists w2,
    body who Repay
      (with_pool
         (fun p =>
            put_total_sbtc_collateral (total_sbtc_collateral p + c)
              (put_total_stx_borrows (total_stx_borrows p + amount)
                 (put_borrows (<[who := mk_borrow amount 0]> (borrows p))
                    (put_collateral (<[who := c]> (collateral p)) p))))
         (put_stx_balances stx1 (put_sbtc_balances sbtc1 w)))
    = Ok true w2
    /\ pool_of w2 = pool_of w
    /\ stx_balances (chain_of w2) = move amount who contract_principal stx1
    /\ sbtc_balances (chain_of w2) = move c contract_principal who sbtc1).
  { intros (w2 & Hrun & Hpool & Hx & Hy). exists w2.
    split; [exact (execute_ok _ _ _ _ _ Hrun)|]. split; [exact Hpool|].
    intros p. rewrite Hx, Hy. subst stx1 sbtc1.
    split; apply balance_move_back; congruence. }
  cbn [body]. unfold repay. fwd. fields. rewrite lookup_insert_eq.
  cbn [unwrap_some]. fwd. fields. rewrite lookup_insert_eq. fields.
  fwd. fields. cbv [id]. rewrite (proj2 (N.ltb_lt 0 c) Hposted).
  fwd. fields. rewrite !N.add_0_r.
  eexists. split; [reflexivity|]. fields.
  split; [|split; reflexivity].
  rewrite !delete_insert_id by assumption.
  apply pool_ext; unfold settings; fields; first [reflexivity | lia].
Qed.

(** ** What the pool holds *)

Lemma body_keeps_collateral_backed tx_sender c w v w' :
  body tx_sender c w = Ok v w' ->
  total_sbtc_collateral (pool_of w)
  <= balance (sbtc_balances (chain_of w)) contract_principal ->
  total_sbtc_collateral (pool_of w')
  <= balance (sbtc_balances (chain_of w')) contract_principal.
Proof.
  intros E Hinv. destruct c; cbn [body] in E.
  - apply deposit_stx_Ok in E. cbv zeta in E.
    destruct E as (_ & _ & _ & _ & _ & _ & _ & ->). exact Hinv.
  - unfold withdraw_stx in E. inv_call; subst; exact Hinv.
  - apply borrow_stx_Ok in E. cbv zeta in E.
    destruct E as (price & _ & _ & _ & _ & _ & Hne & _ & _ & _ & _ & ->).
    fields. destruct (N.ltb_spec 0 collateral_amount).
    + rewrite balance_move_recipient by congruence. lia.
    + lia.
  - apply repay_Ok in E. destruct E as (b & E). cbv zeta in E.
    destruct E as (_ & _ & _ & _ & Hne & _ & _ & _ & Hle & ->).
    fields. destruct (N.ltb_spec 0 (default 0 (collateral (pool_of w)
                                                  !! tx_sender))).
    + rewrite balance_move_sender by congruence. lia.
    + lia.
  - apply liquidate_Ok in E. destruct E as (b & posted & price & E).
    cbv zeta in E.
    destruct E as (_ & _ & _ & _ & _ & _ & _ & _ & Hne & _ & _ & _ & Hle
                   & ->).
    fields. rewrite balance_move_sender by congruence. lia.
  - unfold set_paused in E. inv_call; subst; exact Hinv.
  - unfold set_admin in E. inv_call; subst; exact Hinv.
  - unfold set_params in E. inv_call; subst; exact Hinv.
  - unfold set_sbtc_token in E. inv_call; subst; exact Hinv.
Qed.

(** X15. The collateral is always there.  After any history from
    deployment in which nothing outside the pool takes tokens away from
    it, the pool holds at least total-sbtc-collateral in sBTC. *)
Theorem collateral_is_backed (c0 : chain) (es : list event) :
  undisturbed es (initial_world c0) ->
  let w := run es (initial_world c0) in
  total_sbtc_collateral (pool_of w)
  <= balance (sbtc_balances (chain_of w)) contract_principal.
Proof.
  cbv zeta. unfold run.
  assert (H0 : total_sbtc_collateral (pool_of (initial_world c0))
               <= balance (sbtc_balances (chain_of (initial_world c0)))
                    contract_principal) by (cbn; lia).
  revert H0. generalize (initial_world c0).
  induction es as [|e es IH]; intros w Hw Hu; cbn; [exact Hw|].
  destruct Hu as [He Hu]. apply IH; [|exact Hu].
  destruct e as [who c|c']; cbn.
  - unfold execute. destruct (body who c w) eqn:E; cbn; try exact Hw.
    eauto using body_keeps_collateral_backed.
  - destruct He as [_ He]. lia.
Qed.

Lemma body_keeps_deposits_covered tx_sender c w v w' :
  body tx_sender c w = Ok v w' ->
  (forall user, c <> Liquidate user) ->
  cumulative_yield_bips (pool_of w) = 0 ->
  total_stx_deposits (pool_of w)
  <= balance (stx_balances (chain_of w)) contract_principal
     + total_stx_borrows (pool_of w) ->
  total_stx_deposits (pool_of w')
  <= balance (stx_balances (chain_of w')) contract_principal
     + total_stx_borrows (pool_of w').
Proof.
  intros E Hc Hy Hinv. destruct c; cbn [body] in E.
  - apply deposit_stx_Ok in E. cbv zeta in E.
    destruct E as (_ & _ & _ & Hne & _ & _ & _ & ->). fields.
    rewrite balance_move_recipient by congruence. lia.
  - unfold withdraw_stx in E. inv_call; subst; fields; passed;
      rewrite Hy in *; rewrite N.sub_0_l, N.mul_0_r in *;
      change (0 / 10000) with 0 in *; rewrite N.add_0_r in *;
      rewrite balance_move_sender by congruence; lia.
  - apply borrow_stx_Ok in E. cbv zeta in E.
    destruct E as (price & _ & _ & _ & _ & _ & Hne & _ & _ & _ & Hle & ->).
    fields. rewrite balance_move_sender by congruence. lia.
  - apply repay_Ok in E. destruct E as (b & E). cbv zeta in E.
    destruct E as (_ & _ & _ & _ & Hne & _ & _ & Hle & _ & ->).
    fields. rewrite balance_move_recipient by congruence. lia.
  - now destruct (Hc user).
  - unfold set_paused in E. inv_call; subst; exact Hinv.
  - unfold set_admin in E. inv_call; subst; exact Hinv.
  - unfold set_params in E. inv_call; subst; exact Hinv.
  - unfold set_sbtc_token in E. inv_call; subst; exact Hinv.
Qed.

(** X16. Deposits stay covered as long as nobody is liquidated.  After
    any history from deployment without a liquidate call, in which
    nothing outside the pool takes tokens away from it, the pool's STX
    plus total-stx-borrows come to at least total-stx-deposits. *)
Theorem deposits_are_covered (c0 : chain) (es : list event) :
  undisturbed es (initial_world c0) ->
  no_liquidation es ->
  let w := run es (initial_world c0) in
  total_stx_deposits (pool_of w)
  <= balance (stx_balances (chain_of w)) contract_principal
     + total_stx_borrows (pool_of w).
Proof.
  cbv zeta. unfold run.
  assert (H0 : total_stx_deposits (pool_of (initial_world c0))
               <= balance (stx_balances (chain_of (initial_world c0)))
                    contract_principal
                  + total_stx_borrows (pool_of (initial_world c0)))
    by (cbn; lia).
  pose proof initial_pool_consistent as Hc0.
  change initial_pool with (pool_of (initial_world c0)) in Hc0.
  revert H0 Hc0. generalize (initial_world c0).
  induction es as [|e es IH]; intros w Hw Hcons Hu Hnl; cbn; [exact Hw|].
  destruct Hu as [He Hu].
  assert (Hnl' : no_liquidation es).
  { intros s u Hin. apply (Hnl s u). now right. }
  apply IH; [|apply step_consistent, Hcons|exact Hu|exact Hnl'].
  destruct e as [who c|c']; cbn.
  - unfold execute. destruct (body who c w) eqn:E; cbn; try exact Hw.
    eapply body_keeps_deposits_covered; eauto using cons_yield.
    intros user ->. apply (Hnl who user). now left.
  - destruct He as [He _]. lia.
Qed.

(** ** The accrual routines with a running clock *)

(** X17. Accruing twice at the same clock reading changes nothing the
    second time: whatever the state and the reading, once accrue-interest
    has completed, running it again at the same reading completes and
    leaves the state as it is. *)
Theorem accrue_interest_twice (now : N) (w w1 : world) (v : bool) :
  accrue_interest_at now w = Ok v w1 ->
  accrue_interest_at now w1 = Ok true w1.
Proof.
  unfold accrue_interest_at at 1. intros H. inv_ok; subst; passed.
  - unfold accrue_interest_at. fwd. fields.
    destruct (N.eqb_spec now 0) as [->|Hnow].
    + reflexivity.
    + fwd. now rewrite N.sub_diag.
  - unfold accrue_interest_at. fwd. fields.
    destruct (N.eqb_spec now 0) as [->|Hnow]; [lia|].
    fwd. now rewrite N.sub_diag.
  - unfold accrue_interest_at. fwd. fields.
    destruct (N.eqb_spec now 0) as [->|Hnow]; [lia|].
    fwd. now rewrite N.sub_diag.
  - unfold accrue_interest_at. fwd.
    rewrite (proj2 (N.eqb_neq _ _)) by assumption. fwd.
    now rewrite (proj2 (N.ltb_ge _ _)) by assumption.
Qed.

(** X18. What an accrual touches.  When accrue-interest completes at some
    clock reading, last-interest-accrual is that reading afterwards,
    total-stx-borrows and cumulative-yield-bips have not gone down, and
    everything else (the other totals, the settings, every record and
    every balance) is as before. *)
Theorem accrue_interest_frame (now : N) (w w' : world) (v : bool) :
  accrue_interest_at now w = Ok v w' ->
  last_interest_accrual (pool_of w') = now
  /\ total_stx_borrows (pool_of w) <= total_stx_borrows (pool_of w')
  /\ cumulative_yield_bips (pool_of w) <= cumulative_yield_bips (pool_of w')
  /\ total_stx_deposits (pool_of w') = total_stx_deposits (pool_of w)
  /\ total_sbtc_collateral (pool_of w') = total_sbtc_collateral (pool_of w)
  /\ settings (pool_of w') = settings (pool_of w)
  /\ (forall who, position (pool_of w') who = position (pool_of w) who)
  /\ chain_of w' = chain_of w.
Proof.
  unfold accrue_interest_at. intros H.
  inv_ok; subst; passed; unfold settings, position; fields;
    repeat split; try reflexivity; try apply N.le_add_r; lia.
Qed.

Section Rounding.
Context (k d : N) (Hd : d <> 0).


End Rounding.





(** ** The mock sBTC token *)

Lemma balance_insert_eq (m : gmap string N) k v :
  balance (<[k:=v]> m) k = v.
Proof. unfold balance. now rewrite lookup_insert_eq. Qed.

Lemma balance_insert_ne (m : gmap string N) k k' v :
  k <> k' -> balance (<[k:=v]> m) k' = balance m k'.
Proof. intros H. unfold balance. now rewrite lookup_insert_ne by exact H. Qed.

Lemma balance_pair_le (m : gmap string N) a b :
  a <> b -> balance m a + balance m b <= sum_of id m.
Proof.
  intros Hab. unfold balance.
  rewrite (sum_of_delete_default id m a).
  rewrite (sum_of_delete_default id (delete a m) b).
  rewrite lookup_delete_ne by exact Hab.
  destruct (m !! a), (m !! b); cbn; cbv [id]; lia.
Qed.

Lemma balance_le_sum (m : gmap string N) a : balance m a <= sum_of id m.
Proof.
  unfold balance. rewrite (sum_of_delete_default id m a).
  destruct (m !! a); cbn; cbv [id]; lia.
Qed.

Lemma sum_of_insert_balance (m : gmap string N) k v :
  sum_of id (<[k:=v]> m) + balance m k = v + sum_of id m.
Proof.
  pose proof (sum_of_insert id m k v) as H. unfold balance.
  destruct (m !! k); cbn in *; cbv [id] in *; lia.
Qed.

Lemma sum_of_move (m : gmap string N) amount sender recipient :
  sender <> recipient -> amount <= balance m sender ->
  sum_of id (move amount sender recipient m) = sum_of id m.
Proof.
  intros Hne Hle. unfold move.
  pose proof (sum_of_insert_balance
                (<[sender := balance m sender - amount]> m) recipient
                (balance m recipient + amount)) as H1.
  pose proof (sum_of_insert_balance m sender (balance m sender - amount))
    as H2.
  assert (balance (<[sender := balance m sender - amount]> m) recipient
          = balance m recipient) as E.
  { unfold balance. now rewrite lookup_insert_ne by exact Hne. }
  rewrite E in H1. lia.
Qed.

Lemma token_execute_sound tx_sender c t :
  token_sound t -> token_sound (snd (MockSbtcToken.token_execute tx_sender c t)).
Proof.
  intros [Hsum Hmax]. unfold token_sound.
  destruct c as [amount sender recipient|amount recipient|amount owner|a];
    cbn [MockSbtcToken.token_execute].
  - unfold MockSbtcToken.transfer, MockSbtcToken.ft_transfer,
      MockSbtcToken.try_then.
    repeat (case_bool_decide || case_match); simplify_eq; cbn; auto.
    split; [|assumption].
    rewrite sum_of_move; [assumption|assumption|].
    match goal with H : (_ <? _) = false |- _ => apply N.ltb_ge in H end.
    match goal with H : (_ <? amount) = false |- _ => apply N.ltb_ge in H; exact H end.
  - unfold MockSbtcToken.mint, MockSbtcToken.ft_mint,
      MockSbtcToken.try_then.
    repeat (case_bool_decide || case_match); simplify_eq; cbn; auto.
    repeat match goal with H : (_ <? _) = false |- _ => apply N.ltb_ge in H end.
    split; [|assumption].
    pose proof (sum_of_insert_balance (MockSbtcToken.ft_balances t) recipient
                  (balance (MockSbtcToken.ft_balances t) recipient + amount)).
    lia.
  - unfold MockSbtcToken.burn, MockSbtcToken.ft_burn,
      MockSbtcToken.try_then.
    repeat (case_bool_decide || case_match); simplify_eq; cbn; auto.
    repeat match goal with H : (_ <? _) = false |- _ => apply N.ltb_ge in H end.
    pose proof (sum_of_insert_balance (MockSbtcToken.ft_balances t) owner
                  (balance (MockSbtcToken.ft_balances t) owner - amount)).
    pose proof (balance_le_sum (MockSbtcToken.ft_balances t) owner).
    split; lia.
  - unfold MockSbtcToken.set_admin.
    repeat (case_bool_decide || case_match); simplify_eq; cbn; auto.
Qed.

(** X20. Supply of the token.  After any sequence of calls of transfer,
    mint, burn and set-admin by any senders, starting from the deployed
    token, the supply reported by get-total-supply is the sum of all
    balances, and it is a [uint]. *)
Theorem token_supply_is_sum_of_balances
    (deployer : principal) (txs : list (principal * MockSbtcToken.token_call)) :
  let t := MockSbtcToken.token_run txs (MockSbtcToken.deployed deployer) in
  MockSbtcToken.get_total_supply t
  = ok (sum_of id (MockSbtcToken.ft_balances t))
  /\ sum_of id (MockSbtcToken.ft_balances t) <= UINT_MAX.
Proof.
  cbv zeta. unfold MockSbtcToken.get_total_supply.
  assert (H : token_sound
                (MockSbtcToken.token_run txs (MockSbtcToken.deployed deployer))).
  { unfold MockSbtcToken.token_run.
    assert (H0 : token_sound (MockSbtcToken.deployed deployer)).
    { split; cbn; [apply sum_of_empty | rewrite UINT_MAX_eq; lia]. }
    revert H0. generalize (MockSbtcToken.deployed deployer).
    induction txs as [|[s c] txs IH]; intros t Ht; cbn; [exact Ht|].
    apply IH, token_execute_sound, Ht. }
  destruct H as [Hsum Hmax]. rewrite Hsum. split; [reflexivity|exact Hmax].
Qed.

Ltac token_cases :=
  unfold MockSbtcToken.token_execute, MockSbtcToken.transfer,
    MockSbtcToken.mint, MockSbtcToken.burn, MockSbtcToken.set_admin,
    MockSbtcToken.ft_transfer, MockSbtcToken.ft_mint, MockSbtcToken.ft_burn,
    MockSbtcToken.try_then in *;
  repeat (case_bool_decide || case_match); simplify_eq;
  cbn [fst snd MockSbtcToken.token_admin MockSbtcToken.ft_balances
       MockSbtcToken.ft_supply negb] in *;
  repeat match goal with
    | H : (_ <? _) = false |- _ => apply N.ltb_ge in H
    | H : (_ <? _) = true |- _ => apply N.ltb_lt in H
    | H : (_ =? _) = false |- _ => apply N.eqb_neq in H
    | H : (_ =? _) = true |- _ => apply N.eqb_eq in H
    end.

(** X21. A token call touches no other holder's funds.  Whatever the
    call (transfer, mint, burn or set-admin) and whoever sends it, the
    balance of every principal other than the sender is afterwards at
    least what it was. *)
Theorem token_call_spares_others
    (tx_sender who : principal) (c : MockSbtcToken.token_call)
    (t : MockSbtcToken.token) :
  who <> tx_sender ->
  balance (MockSbtcToken.ft_balances t) who
  <= balance
       (MockSbtcToken.ft_balances
          (snd (MockSbtcToken.token_execute tx_sender c t)))
       who.
Proof.
  intros Hwho. destruct c as [amount sender recipient|amount recipient|amount owner|a];
    token_cases; try apply N.le_refl.
  - destruct (decide (who = recipient)) as [->|Hr].
    + rewrite balance_move_recipient by assumption. apply N.le_add_r.
    + rewrite balance_move_other by assumption. apply N.le_refl.
  - destruct (decide (who = recipient)) as [->|Hr].
    + rewrite balance_insert_eq. apply N.le_add_r.
    + rewrite balance_insert_ne by congruence. apply N.le_refl.
  - rewrite balance_insert_ne by congruence. apply N.le_refl.
Qed.

(** X22. Who can create tokens or hand over the token.  If a call
    raises the supply, it is a mint sent by the admin and the supply
    rises by the amount minted; if a call changes the admin, it is a
    set-admin sent by the admin. *)
Theorem token_admin_rights
    (tx_sender : principal) (c : MockSbtcToken.token_call)
    (t : MockSbtcToken.token) :
  let t' := snd (MockSbtcToken.token_execute tx_sender c t) in
  (MockSbtcToken.ft_supply t < MockSbtcToken.ft_supply t' ->
     tx_sender = MockSbtcToken.token_admin t
     /\ exists amount recipient,
          c = MockSbtcToken.Mint amount recipient
          /\ MockSbtcToken.ft_supply t'
             = MockSbtcToken.ft_supply t + amount)
  /\ (MockSbtcToken.token_admin t' <> MockSbtcToken.token_admin t ->
        tx_sender = MockSbtcToken.token_admin t
        /\ c = MockSbtcToken.SetTokenAdmin (MockSbtcToken.token_admin t')).
Proof.
  cbv zeta. split; intros H;
    destruct c as [amount sender recipient|amount recipient|amount owner|a];
    token_cases; try lia; try congruence; eauto.
Qed.

(** X23. Calls by the wrong sender.  mint and set-admin sent by anyone
    but the admin, burn sent by anyone but the owner, and transfer sent
    by anyone but the sender of the funds all fail with (err u100) and
    change nothing, whatever the amount. *)
Theorem token_refuses_strangers
    (tx_sender : principal) (c : MockSbtcToken.token_call)
    (t : MockSbtcToken.token) :
  match c with
  | MockSbtcToken.Transfer _ sender _ => tx_sender <> sender
  | MockSbtcToken.Mint _ _ => tx_sender <> MockSbtcToken.token_admin t
  | MockSbtcToken.Burn _ owner => tx_sender <> owner
  | MockSbtcToken.SetTokenAdmin _ =>
      tx_sender <> MockSbtcToken.token_admin t
  end ->
  MockSbtcToken.token_execute tx_sender c t
  = (Failure MockSbtcToken.ERR_UNAUTHORIZED, t).
Proof.
  intros H. destruct c; token_cases; congruence.
Qed.

(** X24. Minting and burning cancel.  When the admin's mint of some
    amount to a recipient succeeds, the recipient's burn of the same
    amount right after succeeds as well, and then the supply, the admin
    and every balance are what they were before the mint. *)
Theorem mint_burn_round_trip
    (tx_sender recipient : principal) (amount : N)
    (t t1 : MockSbtcToken.token) (v : bool) :
  MockSbtcToken.token_execute tx_sender (MockSbtcToken.Mint amount recipient) t
  = (Success v, t1) ->
  exists t2,
    MockSbtcToken.token_execute recipient
      (MockSbtcToken.Burn amount recipient) t1
    = (Success true, t2)
    /\ MockSbtcToken.ft_supply t2 = MockSbtcToken.ft_supply t
    /\ MockSbtcToken.token_admin t2 = MockSbtcToken.token_admin t
    /\ forall who,
         MockSbtcToken.get_balance who t2 = MockSbtcToken.get_balance who t.
Proof.
  intros H.
  assert (E : t1 = {| MockSbtcToken.token_admin := MockSbtcToken.token_admin t;
                      MockSbtcToken.ft_balances :=
                        <[recipient :=
                            balance (MockSbtcToken.ft_balances t) recipient
                            + amount]> (MockSbtcToken.ft_balances t);
                      MockSbtcToken.ft_supply :=
                        MockSbtcToken.ft_supply t + amount |}
              /\ amount <> 0).
  { token_cases. split; [reflexivity|assumption]. }
  destruct E as [-> Hpos]. clear H.
  eexists. split.
  - cbn [MockSbtcToken.token_execute]. unfold MockSbtcToken.burn.
    rewrite bool_decide_eq_true_2 by reflexivity. cbn [negb].
    unfold MockSbtcToken.ft_burn.
    rewrite (proj2 (N.eqb_neq _ _)) by exact Hpos.
    cbn [MockSbtcToken.ft_balances]. rewrite !balance_insert_eq.
    rewrite (proj2 (N.ltb_ge _ _)) by lia.
    cbn [MockSbtcToken.try_then]. reflexivity.
  - cbn [MockSbtcToken.ft_supply MockSbtcToken.token_admin
         MockSbtcToken.ft_balances].
    split; [lia|]. split; [reflexivity|]. intros who.
    unfold MockSbtcToken.get_balance. f_equal.
    cbn [MockSbtcToken.ft_balances]. rewrite insert_insert_eq.
    destruct (decide (who = recipient)) as [->|Hne].
    + rewrite !balance_insert_eq. lia.
    + now rewrite balance_insert_ne by congruence.
Qed.

(** X25. The pool's view of a transfer is the token's.  Let the token's
    supply be the sum of its balances and a [uint], and let the pool see
    these balances.  Then the transfer the pool calls never stops on a
    runtime error; it answers as the token contract's transfer does, and
    when that succeeds the pool sees the balances the token has
    committed. *)
Theorem pool_transfer_is_token_transfer
    (tx_sender sender recipient : principal) (amount : N)
    (t : MockSbtcToken.token) (w : world) :
  token_sound t ->
  match MockSbtcToken.transfer tx_sender amount sender recipient t with
  | (Success v, t') =>
      MockSbtc.transfer tx_sender amount sender recipient (seen_by_pool t w)
      = Ok v (seen_by_pool t' w)
  | (Failure e, _) =>
      MockSbtc.transfer tx_sender amount sender recipient (seen_by_pool t w)
      = Err e (seen_by_pool t w)
  | (RuntimeError, _) => False
  end.
Proof.
  intros [Hsum Hmax].
  unfold MockSbtc.transfer, MockSbtc.ft_transfer, asserts, bind, ret, throw,
    seen_by_pool.
  cbv beta iota delta [put_sbtc_balances chain_of sbtc_balances pool_of
                       stx_balances oracle_reply].
  unfold MockSbtcToken.transfer, MockSbtcToken.ft_transfer,
    MockSbtcToken.try_then.
  destruct (decide (sender = tx_sender)) as [->|Hs].
  - rewrite !bool_decide_eq_true_2 by reflexivity. cbn [negb].
    destruct (amount =? 0); [reflexivity|].
    destruct (bool_decide (tx_sender = recipient)) eqn:Hr; [reflexivity|].
    apply bool_decide_eq_false_1 in Hr.
    destruct (N.ltb_spec (balance (MockSbtcToken.ft_balances t) tx_sender) amount);
      [reflexivity|].
    pose proof (balance_pair_le (MockSbtcToken.ft_balances t) _ _ Hr).
    rewrite (proj2 (N.ltb_ge _ _)) by lia.
    reflexivity.
  - rewrite !bool_decide_eq_false_2 by exact Hs. cbn [negb]. reflexivity.
Qed.

(** ** The amount field of the front end *)

Section AmountText.
Import StxUtils.

Lemma app_cons c s t : String c s +:+ t = String c (s +:+ t).
Proof. reflexivity. Qed.

Lemma app_nil s : "" +:+ s = s.
Proof. reflexivity. Qed.

Lemma every_app p s t : every p (s +:+ t) = every p s && every p t.
Proof.
  induction s as [|c s IH]; [reflexivity|].
  rewrite app_cons. cbn [every]. rewrite IH. apply andb_assoc.
Qed.

Lemma length_app s t :
  String.length (s +:+ t) = (String.length s + String.length t)%nat.
Proof.
  induction s as [|c s IH]; [reflexivity|].
  rewrite app_cons. cbn [String.length plus]. now rewrite IH.
Qed.

Lemma every_weaken (p q : ascii -> bool) s :
  (forall c, p c = true -> q c = true) ->
  every p s = true -> every q s = true.
Proof.
  intros Hpq. induction s as [|c s IH]; [reflexivity|].
  cbn [every]. rewrite !andb_true_iff. intros [Hc Hs]. auto.
Qed.

Lemma digit_no_space c : is_digit c = true -> is_space c = false.
Proof. destruct c as [[] [] [] [] [] [] [] []]; vm_compute; congruence. Qed.

Lemma digit_no_dot c : is_digit c = true -> is_dot c = false.
Proof. destruct c as [[] [] [] [] [] [] [] []]; vm_compute; congruence. Qed.

Lemma dot_no_space c : is_dot c = true -> is_space c = false.
Proof. destruct c as [[] [] [] [] [] [] [] []]; vm_compute; congruence. Qed.

(** *** trim *)

Lemma trim_end_no_space s :
  every (fun c => negb (is_space c)) s = true -> trim_end s = s.
Proof.
  induction s as [|c s IH]; [reflexivity|].
  cbn [every trim_end]. rewrite andb_true_iff, negb_true_iff.
  intros [Hc Hs]. rewrite (IH Hs), Hc. now destruct s.
Qed.

Lemma trim_no_space s :
  every (fun c => negb (is_space c)) s = true -> trim s = s.
Proof.
  intros H. unfold trim.
  assert (trim_start s = s) as ->; [|now apply trim_end_no_space].
  destruct s as [|c s]; [reflexivity|].
  cbn [every] in H. apply andb_true_iff in H as [Hc _].
  apply negb_true_iff in Hc. cbn [trim_start]. now rewrite Hc.
Qed.

(** *** Decimal digits *)

Lemma is_nat_pretty_N_char d :
  d < 10 -> Ascii.is_nat (pretty_N_char d) = Some (N.to_nat d).
Proof.
  intros Hd.
  assert (d = 0 \/ d = 1 \/ d = 2 \/ d = 3 \/ d = 4 \/ d = 5 \/ d = 6
          \/ d = 7 \/ d = 8 \/ d = 9) as Hcases by lia.
  repeat (destruct Hcases as [->|Hcases]; [reflexivity|]).
  now subst.
Qed.

Lemma pretty_N_go_digits x s :
  every is_digit s = true -> every is_digit (pretty_N_go x s) = true.
Proof.
  revert s. induction (N.lt_wf_0 x) as [x _ IH]. intros s Hs.
  destruct (N.eq_dec x 0) as [->|Hx]; [exact Hs|].
  rewrite pretty_N_go_step by lia.
  apply IH; [apply N.div_lt; lia|].
  cbn [every]. rewrite Hs, andb_true_r. unfold is_digit.
  now rewrite is_nat_pretty_N_char by (apply N.mod_lt; lia).
Qed.

Lemma pretty_N_go_value x s :
  digits_value (pretty_N_go x s) 0 = digits_value s (Z.of_N x).
Proof.
  revert s. induction (N.lt_wf_0 x) as [x _ IH]. intros s.
  destruct (N.eq_dec x 0) as [->|Hx]; [reflexivity|].
  rewrite pretty_N_go_step by lia.
  rewrite IH by (apply N.div_lt; lia).
  cbn [digits_value].
  rewrite is_nat_pretty_N_char by (apply N.mod_lt; lia).
  cbn [default]. f_equal. cbv [id]. rewrite N_nat_Z.
  pose proof (N.div_mod x 10). lia.
Qed.

Lemma pretty_N_go_length (k : nat) x s :
  x < 10 ^ N.of_nat k ->
  (String.length (pretty_N_go x s) <= k + String.length s)%nat.
Proof.
  revert x s. induction k as [|k IH]; intros x s Hx.
  - assert (x = 0) as -> by (cbn in Hx; lia). rewrite pretty_N_go_0. lia.
  - destruct (N.eq_dec x 0) as [->|Hx0]; [rewrite pretty_N_go_0; lia|].
    rewrite pretty_N_go_step by lia.
    etransitivity; [apply IH|cbn; lia].
    apply N.Div0.div_lt_upper_bound.
    rewrite Nat2N.inj_succ, N.pow_succ_r' in Hx. exact Hx.
Qed.

(** Text of a [bigint] that is not negative. *)
Lemma toString_nonneg (z : Z) :
  (0 <= z)%Z ->
  every is_digit (toString z) = true
  /\ toString z <> ""
  /\ BigInt (toString z) = z.
Proof.
  intros Hz. unfold toString, pretty, pretty_Z, BigInt.
  destruct z as [|p|p]; [now repeat split| |lia].
  unfold pretty, pretty_positive, pretty, pretty_N.
  rewrite decide_False by discriminate.
  split; [now apply pretty_N_go_digits|].
  split; [|now rewrite pretty_N_go_value].
  rewrite pretty_N_go_step by lia. 
  intros E.
  pose proof (pretty_N_go_ne_0 (N.pos p `div` 10)
                (String (pretty_N_char (N.pos p `mod` 10)) "")) as Hne.
  assert (Hlen : forall x s, s <> "" -> pretty_N_go x s <> "").
  { clear. intros x. induction (N.lt_wf_0 x) as [x _ IH]. intros s Hs.
    destruct (N.eq_dec x 0) as [->|Hx]; [exact Hs|].
    rewrite pretty_N_go_step by lia.
    apply IH; [apply N.div_lt; lia|discriminate]. }
  now apply Hlen in E.
Qed.

Lemma toString_length (k : nat) (z : Z) :
  (0 < z < 10 ^ Z.of_nat k)%Z -> (String.length (toString z) <= k)%nat.
Proof.
  intros [Hpos Hlt]. unfold toString, pretty, pretty_Z.
  destruct z as [|p|p]; try lia.
  unfold pretty, pretty_positive, pretty, pretty_N.
  rewrite decide_False by discriminate.
  etransitivity; [apply (pretty_N_go_length k)|cbn; lia].
  apply N2Z.inj_lt. rewrite N2Z.inj_pow, nat_N_Z. exact Hlt.
Qed.

(** *** The pattern and split *)

Lemma digits_then_tail_digits s :
  every is_digit s = true -> digits_then_tail s = true.
Proof.
  induction s as [|c s IH]; [reflexivity|].
  cbn [every digits_then_tail]. rewrite andb_true_iff.
  intros [-> Hs]. auto.
Qed.

Lemma digits_then_tail_app s t :
  every is_digit s = true ->
  digits_then_tail (s +:+ String "." t) = fraction_ok t.
Proof.
  induction s as [|c s IH].
  - intros _. reflexivity.
  - cbn [every]. rewrite andb_true_iff. intros [Hc Hs].
    rewrite app_cons. cbn [digits_then_tail]. rewrite Hc. auto.
Qed.

Lemma split_dot_digits s :
  every is_digit s = true -> split_dot s = [s].
Proof.
  induction s as [|c s IH]; [reflexivity|].
  cbn [every split_dot]. rewrite andb_true_iff. intros [Hc Hs].
  now rewrite (digit_no_dot c Hc), (IH Hs).
Qed.

Lemma split_dot_app s t :
  every is_digit s = true -> every is_digit t = true ->
  split_dot (s +:+ String "." t) = [s; t].
Proof.
  intros Hs Ht. induction s as [|c s IH].
  - rewrite app_nil. cbn [split_dot].
    change (is_dot ".") with true. cbv iota.
    now rewrite split_dot_digits.
  - cbn [every] in Hs. apply andb_true_iff in Hs as [Hc Hs].
    rewrite app_cons. cbn [split_dot].
    now rewrite (digit_no_dot c Hc), (IH Hs).
Qed.

(** *** Padding and stripping zeros *)

Lemma every_zeros n : every is_digit (zeros n) = true.
Proof. induction n; [reflexivity|exact IHn]. Qed.

Lemma length_zeros n : String.length (zeros n) = n.
Proof. induction n; cbn; [reflexivity|now rewrite IHn]. Qed.

Lemma digits_value_zeros n s :
  digits_value (zeros n +:+ s) 0 = digits_value s 0.
Proof. induction n; [reflexivity|exact IHn]. Qed.

Lemma strip_trailing_zeros_spec s :
  exists k, s = strip_trailing_zeros s +:+ zeros k.
Proof.
  induction s as [|c s [k IH]]; [now exists 0%nat|].
  cbn [strip_trailing_zeros].
  destruct (strip_trailing_zeros s) as [|c' t] eqn:E.
  - rewrite app_nil in IH. unfold is_zero. case_bool_decide as Hc.
    + exists (S k). rewrite app_nil. cbn [zeros]. now rewrite Hc, <- IH.
    + exists k. rewrite app_cons, app_nil. now rewrite <- IH.
  - exists k. rewrite app_cons. now rewrite <- IH.
Qed.

Lemma strip_trailing_zeros_digits s :
  every is_digit s = true -> every is_digit (strip_trailing_zeros s) = true.
Proof.
  intros Hs. destruct (strip_trailing_zeros_spec s) as [k E].
  rewrite E, every_app in Hs. now apply andb_true_iff in Hs as [? _].
Qed.

Lemma strip_trailing_zeros_length s :
  (String.length (strip_trailing_zeros s) <= String.length s)%nat.
Proof.
  destruct (strip_trailing_zeros_spec s) as [k E].
  rewrite E at 2. rewrite length_app. lia.
Qed.

Lemma slice_to_app_zeros s n m :
  (String.length s + n <= m)%nat ->
  slice_to (String.length s + n) (s +:+ zeros m) = s +:+ zeros n.
Proof.
  revert n m. induction s as [|c s IH]; intros n m Hle.
  - rewrite !app_nil. cbn [String.length plus] in *. revert m Hle.
    induction n as [|n IHn]; intros m Hle.
    + now destruct (zeros m).
    + destruct m as [|m]; [lia|]. cbn [zeros slice_to]. f_equal.
      apply IHn. lia.
  - rewrite !app_cons. cbn [String.length plus slice_to] in *. f_equal.
    apply IH. lia.
Qed.

(** Stripping the zeros at the end and filling up again gives back a text
    of six characters. *)
Lemma refill_stripped s :
  String.length s = 6%nat ->
  slice_to 6 (strip_trailing_zeros s +:+ "000000") = s.
Proof.
  intros Hlen. destruct (strip_trailing_zeros_spec s) as [k E].
  assert (String.length (strip_trailing_zeros s) + k = 6)%nat as Hk.
  { rewrite E, length_app, length_zeros in Hlen. exact Hlen. }
  rewrite E at 2. rewrite <- Hk.
  apply (slice_to_app_zeros _ k 6). lia.
Qed.

Lemma digits_no_space s :
  every is_digit s = true -> every (fun c => negb (is_space c)) s = true.
Proof.
  apply every_weaken. intros c Hc. now rewrite (digit_no_space c Hc).
Qed.

(** What the parser makes of digits, or of digits, a dot and up to six
    digits. *)
Lemma parse_whole w :
  every is_digit w = true -> w <> "" ->
  parseStxToMicrostx w
  = (if (0 <? BigInt w * MICROSTX_PER_STX)%Z
     then Some (BigInt w * MICROSTX_PER_STX)%Z else None).
Proof.
  intros Hw Hne. unfold parseStxToMicrostx.
  rewrite trim_no_space by now apply digits_no_space.
  rewrite bool_decide_eq_false_2 by exact Hne.
  assert (test_amount w = true) as ->.
  { destruct w as [|c w]; [congruence|]. cbn [every test_amount] in *.
    apply andb_true_iff in Hw as [-> Hw]. now apply digits_then_tail_digits. }
  cbn [negb]. rewrite split_dot_digits by exact Hw.
  cbn [nth]. rewrite app_nil.
  change (slice_to 6 "000000") with "000000".
  rewrite bool_decide_eq_false_2 by discriminate.
  change (BigInt "000000") with 0%Z. now rewrite Z.add_0_r.
Qed.

Lemma parse_fraction w f :
  every is_digit w = true -> w <> "" ->
  every is_digit f = true -> (String.length f <= 6)%nat ->
  parseStxToMicrostx (w +:+ "." +:+ f)
  = (let micro :=
       (BigInt w * MICROSTX_PER_STX + BigInt (slice_to 6 (f +:+ "000000")))%Z
     in if (0 <? micro)%Z then Some micro else None).
Proof.
  intros Hw Hne Hf Hlen. unfold parseStxToMicrostx.
  rewrite trim_no_space.
  2:{ rewrite every_app, (digits_no_space w Hw). cbn [andb].
      change ("." +:+ f) with (String "." f). cbn [every].
      now rewrite (digits_no_space f Hf). }
  rewrite bool_decide_eq_false_2 by (destruct w; [congruence|discriminate]).
  change ("." +:+ f) with (String "." f).
  assert (test_amount (w +:+ String "." f) = true) as ->.
  { destruct w as [|c w]; [congruence|]. rewrite app_cons.
    cbn [every test_amount] in *.
    apply andb_true_iff in Hw as [-> Hw]. cbn [andb].
    rewrite digits_then_tail_app by exact Hw.
    unfold fraction_ok. rewrite Hf. now rewrite bool_decide_eq_true_2. }
  cbn [negb]. rewrite split_dot_app by assumption. cbn [nth].
  assert (slice_to 6 (f +:+ "000000") <> "") as Hpad.
  { destruct f; [discriminate|]. rewrite app_cons. discriminate. }
  now rewrite bool_decide_eq_false_2 by exact Hpad.
Qed.

Lemma parse_format (value : Z) :
  (0 < value)%Z ->
  parseStxToMicrostx (formatMicrostxToStx value) = Some value.
Proof.
  intros Hpos. unfold formatMicrostxToStx.
  assert (Hunit : MICROSTX_PER_STX = 1000000%Z) by reflexivity.
  rewrite Z.quot_div_nonneg, Z.rem_mod_nonneg by (rewrite ?Hunit; lia).
  pose proof (Z.div_mod value MICROSTX_PER_STX) as Hsplit.
  pose proof (Z.mod_pos_bound value MICROSTX_PER_STX) as Hbound.
  assert (0 <= value `div` MICROSTX_PER_STX)%Z as Hwhole
    by (apply Z.div_pos; rewrite ?Hunit; lia).
  destruct (toString_nonneg _ Hwhole) as (Hw & Hne & Hvalue).
  destruct (Z.eqb_spec (value `mod` MICROSTX_PER_STX) 0) as [Hzero|Hrest].
  - rewrite parse_whole, Hvalue by assumption.
    rewrite (proj2 (Z.ltb_lt _ _)) by (rewrite Hunit in *; lia).
    f_equal. rewrite Hunit in *. lia.
  - assert (0 <= value `mod` MICROSTX_PER_STX)%Z as Hfrac
      by (rewrite Hunit in *; lia).
    destruct (toString_nonneg _ Hfrac) as (Hf & _ & Hfvalue).
    assert (String.length (toString (value `mod` MICROSTX_PER_STX)) <= 6)%nat
      as Hflen.
    { apply toString_length. rewrite Hunit in *. cbn. lia. }
    set (text := toString (value `mod` MICROSTX_PER_STX)) in *.
    assert (String.length (padStart 6 text) = 6%nat) as Hplen.
    { unfold padStart. rewrite length_app, length_zeros. lia. }
    assert (every is_digit (padStart 6 text) = true) as Hpdigits.
    { unfold padStart. now rewrite every_app, every_zeros, Hf. }
    rewrite parse_fraction; try assumption.
    + cbv zeta. rewrite refill_stripped by exact Hplen.
      assert (BigInt (padStart 6 text) = BigInt text) as ->
        by apply digits_value_zeros.
      rewrite Hvalue, Hfvalue.
      rewrite (proj2 (Z.ltb_lt _ _)) by (rewrite Hunit in *; lia).
      f_equal. rewrite Hunit in *. lia.
    + now apply strip_trailing_zeros_digits.
    + pose proof (strip_trailing_zeros_length (padStart 6 text)). lia.
Qed.

(** X26. What is shown can be typed back.  For every positive amount of
    micro-STX, parseStxToMicrostx reads the text formatMicrostxToStx
    writes for it as that amount; so two positive amounts are never
    shown as the same text. *)
Theorem parse_format_round_trip (value : Z) :
  (0 < value)%Z ->
  parseStxToMicrostx (formatMicrostxToStx value) = Some value
  /\ forall other,
       (0 < other)%Z ->
       formatMicrostxToStx other = formatMicrostxToStx value ->
       other = value.
Proof.
  intros Hpos. split; [now apply parse_format|].
  intros other Hother Htext.
  pose proof (parse_format other Hother) as H.
  rewrite Htext, (parse_format value Hpos) in H. congruence.
Qed.

End AmountText.

(** ** The front end and the pool *)




















(** ** The further properties at sample states *)

(** Decide a closed conjunction piece by piece. *)
Ltac holds := repeat first [exact I | evaluate | split].

Lemma only_admin_changes_settings_witness :
  "mallory" <> admin (pool_of funded_world)
  /\ settings (pool_of (snd (execute "mallory" (SetPaused true) funded_world)))
     = settings (pool_of funded_world)
  /\ execute "mallory" (SetPaused true) funded_world
     = (Failure ERR_UNAUTHORIZED, funded_world).
Proof.
  split; [evaluate|].
  destruct (only_admin_changes_settings "mallory" (SetPaused true)
              funded_world) as [Hsame Hfail]; [evaluate|].
  split; [exact Hsame|]. apply Hfail. reflexivity.
Defined.


Lemma queries_on_unknown_account_witness :
  get_debt "bob" funded_world = Ok 0 funded_world
  /\ get_collateral "bob" funded_world = Ok 0 funded_world
  /\ get_pending_yield "bob" funded_world = Ok 0 funded_world.
Proof.
  destruct (queries_on_unknown_account "bob" funded_world)
    as (Hdebt & Hcollateral & Hyield).
  split; [apply Hdebt; evaluate|].
  split; [apply Hcollateral; evaluate | apply Hyield; evaluate].
Defined.

Lemma withdraw_stx_pays_deposit_and_yield_witness :
  execute "alice" (WithdrawStx 100) yield_pending_world
  = (Success true, snd (execute "alice" (WithdrawStx 100) yield_pending_world))
  /\ exists d pending,
       deposits (pool_of yield_pending_world) !! "alice" = Some d
       /\ eval (get_pending_yield "alice") yield_pending_world = Some pending
       /\ balance
            (stx_balances
               (chain_of
                  (snd (execute "alice" (WithdrawStx 100)
                          yield_pending_world))))
            "alice"
          = balance (stx_balances (chain_of yield_pending_world)) "alice"
            + (100 + pending).
Proof.
  assert (H : execute "alice" (WithdrawStx 100) yield_pending_world
              = (Success true,
                 snd (execute "alice" (WithdrawStx 100) yield_pending_world)))
    by evaluate.
  split; [exact H|].
  destruct (withdraw_stx_pays_deposit_and_yield "alice" 100
              yield_pending_world _ true H)
    as (d & pending & Hd & Hp & _ & Hb & _).
  exists d, pending. split; [exact Hd|]. split; [exact Hp|exact Hb].
Defined.

Lemma deposits_accumulate_witness :
  execute "alice" (DepositStx 1000) (initial_world fresh_chain)
  = (Success true,
     snd (execute "alice" (DepositStx 1000) (initial_world fresh_chain)))
  /\ execute "alice" (DepositStx 2000)
       (snd (execute "alice" (DepositStx 1000) (initial_world fresh_chain)))
     = (Success true,
        run [Tx "alice" (DepositStx 1000); Tx "alice" (DepositStx 2000)]
          (initial_world fresh_chain))
  /\ total_stx_deposits
       (pool_of
          (run [Tx "alice" (DepositStx 1000); Tx "alice" (DepositStx 2000)]
             (initial_world fresh_chain)))
     = total_stx_deposits (pool_of (initial_world fresh_chain)) + 1000 + 2000.
Proof.
  assert (H1 : execute "alice" (DepositStx 1000) (initial_world fresh_chain)
               = (Success true,
                  snd (execute "alice" (DepositStx 1000)
                         (initial_world fresh_chain))))
    by evaluate.
  assert (H2 : execute "alice" (DepositStx 2000)
                 (snd (execute "alice" (DepositStx 1000)
                         (initial_world fresh_chain)))
               = (Success true,
                  run [Tx "alice" (DepositStx 1000);
                       Tx "alice" (DepositStx 2000)]
                    (initial_world fresh_chain)))
    by evaluate.
  split; [exact H1|]. split; [exact H2|].
  apply (deposits_accumulate "alice" 1000 2000 _ _ _ true true H1 H2).
Defined.

Lemma withdraw_stx_refusals_witness :
  deposits (pool_of funded_world) !! "bob" = None
  /\ execute "bob" (WithdrawStx 5) funded_world
     = (Failure ERR_INVALID_WITHDRAW_AMOUNT, funded_world).
Proof.
  split; [evaluate|].
  apply (withdraw_stx_refusals "bob" 5 funded_world). left. evaluate.
Defined.

Lemma borrow_stx_respects_limit_witness :
  execute "bob" (BorrowStx 10 700) funded_world
  = (Success true, borrowed_world)
  /\ exists price debt posted,
       oracle_reply (chain_of funded_world) = ok price
       /\ borrows (pool_of borrowed_world) !! "bob" = Some (mk_borrow debt 0)
       /\ collateral (pool_of borrowed_world) !! "bob" = Some posted
       /\ debt <= posted * price * ltv_percentage (pool_of borrowed_world) / 100.
Proof.
  assert (H : execute "bob" (BorrowStx 10 700) funded_world
              = (Success true, borrowed_world)) by evaluate.
  split; [exact H|].
  destruct (borrow_stx_respects_limit "bob" 10 700 funded_world _ true H)
    as (price & debt & posted & Hprice & _ & Hb & Hc & _ & _ & _ & Hlimit).
  exists price, debt, posted. repeat split; assumption.
Defined.

Lemma borrow_stx_moves_funds_witness :
  execute "bob" (BorrowStx 10 700) funded_world
  = (Success true, borrowed_world)
  /\ balance (stx_balances (chain_of borrowed_world)) "bob"
     = balance (stx_balances (chain_of funded_world)) "bob" + 700
  /\ balance (sbtc_balances (chain_of borrowed_world)) contract_principal
     = balance (sbtc_balances (chain_of funded_world)) contract_principal + 10.
Proof.
  assert (H : execute "bob" (BorrowStx 10 700) funded_world
              = (Success true, borrowed_world)) by evaluate.
  split; [exact H|].
  destruct (borrow_stx_moves_funds "bob" 10 700 funded_world _ true H)
    as (Hstx & _ & _ & Hsbtc & _).
  split; [exact Hstx|exact Hsbtc].
Defined.

Lemma repay_closes_position_witness :
  execute "bob" Repay borrowed_world
  = (Success true, snd (execute "bob" Repay borrowed_world))
  /\ position (pool_of (snd (execute "bob" Repay borrowed_world))) "bob"
     = (deposits (pool_of borrowed_world) !! "bob", None, None).
Proof.
  assert (H : execute "bob" Repay borrowed_world
              = (Success true, snd (execute "bob" Repay borrowed_world)))
    by evaluate.
  split; [exact H|].
  destruct (repay_closes_position "bob" borrowed_world _ true H)
    as (b & _ & Hposition & _).
  exact Hposition.
Defined.

Lemma missing_position_refusals_witness :
  execute "alice" Repay funded_world
  = (Failure ERR_INVALID_WITHDRAW_AMOUNT, funded_world)
  /\ execute "carol" (Liquidate "alice") funded_world
     = (Failure ERR_CANNOT_BE_LIQUIDATED, funded_world).
Proof.
  split.
  - apply (proj1 (missing_position_refusals "alice" "alice" funded_world)).
    evaluate.
  - apply (proj2 (missing_position_refusals "carol" "alice" funded_world)).
    left. evaluate.
Defined.

Lemma liquidate_accounting_witness :
  execute "carol" (Liquidate "bob") (boundary_world false 700)
  = (Success true,
     snd (execute "carol" (Liquidate "bob") (boundary_world false 700)))
  /\ exists b posted,
       borrows (pool_of (boundary_world false 700)) !! "bob" = Some b
       /\ collateral (pool_of (boundary_world false 700)) !! "bob"
          = Some posted
       /\ balance
            (sbtc_balances
               (chain_of
                  (snd (execute "carol" (Liquidate "bob")
                          (boundary_world false 700)))))
            "carol"
          = balance (sbtc_balances (chain_of (boundary_world false 700)))
              "carol"
            + posted.
Proof.
  assert (H : execute "carol" (Liquidate "bob") (boundary_world false 700)
              = (Success true,
                 snd (execute "carol" (Liquidate "bob")
                        (boundary_world false 700))))
    by evaluate.
  split; [exact H|].
  destruct (liquidate_accounting "carol" "bob" (boundary_world false 700)
              _ true H)
    as (b & posted & Hb & Hc & _ & _ & _ & _ & Hsbtc & _).
  exists b, posted. split; [exact Hb|]. split; [exact Hc|exact Hsbtc].
Defined.

Lemma other_positions_untouched_witness :
  "alice" <> "bob"
  /\ position
       (pool_of (snd (execute "bob" (BorrowStx 10 700) funded_world)))
       "alice"
     = position (pool_of funded_world) "alice".
Proof.
  split; [discriminate|].
  apply (other_positions_untouched "bob" "alice" (BorrowStx 10 700)
           funded_world).
  - discriminate.
  - intros user E. discriminate E.
Defined.

Lemma borrow_repay_round_trip_witness :
  borrows (pool_of funded_world) !! "bob" = None
  /\ collateral (pool_of funded_world) !! "bob" = None
  /\ execute "bob" (BorrowStx 10 700) funded_world
     = (Success true, borrowed_world)
  /\ exists w2,
       execute "bob" Repay borrowed_world = (Success true, w2)
       /\ pool_of w2 = pool_of funded_world.
Proof.
  assert (H : execute "bob" (BorrowStx 10 700) funded_world
              = (Success true, borrowed_world)) by evaluate.
  split; [evaluate|]. split; [evaluate|]. split; [exact H|].
  destruct (borrow_repay_round_trip "bob" 10 700 funded_world
              borrowed_world true)
    as (w2 & Hrun & Hpool & _); [evaluate|evaluate|exact H|].
  exists w2. split; [exact Hrun|exact Hpool].
Defined.

Lemma collateral_is_backed_witness :
  undisturbed quiet_history (initial_world fresh_chain)
  /\ total_sbtc_collateral
       (pool_of (run quiet_history (initial_world fresh_chain)))
     <= balance
          (sbtc_balances
             (chain_of (run quiet_history (initial_world fresh_chain))))
          contract_principal.
Proof.
  assert (H : undisturbed quiet_history (initial_world fresh_chain))
    by (cbn [undisturbed quiet_history]; holds).
  split; [exact H|].
  apply (collateral_is_backed fresh_chain quiet_history H).
Defined.

Lemma deposits_are_covered_witness :
  undisturbed quiet_history (initial_world fresh_chain)
  /\ no_liquidation quiet_history
  /\ total_stx_deposits
       (pool_of (run quiet_history (initial_world fresh_chain)))
     <= balance
          (stx_balances
             (chain_of (run quiet_history (initial_world fresh_chain))))
          contract_principal
        + total_stx_borrows
            (pool_of (run quiet_history (initial_world fresh_chain))).
Proof.
  assert (H : undisturbed quiet_history (initial_world fresh_chain))
    by (cbn [undisturbed quiet_history]; holds).
  assert (Hn : no_liquidation quiet_history).
  { intros tx_sender user Hin. unfold quiet_history in Hin.
    repeat (apply elem_of_cons in Hin as [Hin|Hin]; [discriminate Hin|]).
    now apply elem_of_nil in Hin. }
  split; [exact H|]. split; [exact Hn|].
  apply (deposits_are_covered fresh_chain quiet_history H Hn).
Defined.

Lemma accrue_interest_twice_witness :
  exists w1,
    accrue_interest_at 31556953 year_old_world = Ok true w1
    /\ accrue_interest_at 31556953 w1 = Ok true w1.
Proof.
  assert (H : exists w1,
                accrue_interest_at 31556953 year_old_world = Ok true w1)
    by (eexists; vm_compute; reflexivity).
  destruct H as [w1 H]. exists w1. split; [exact H|].
  apply (accrue_interest_twice 31556953 year_old_world w1 true H).
Defined.

Lemma accrue_interest_frame_witness :
  exists w',
    accrue_interest_at 31556953 year_old_world = Ok true w'
    /\ last_interest_accrual (pool_of w') = 31556953
    /\ chain_of w' = chain_of year_old_world.
Proof.
  assert (H : exists w',
                accrue_interest_at 31556953 year_old_world = Ok true w')
    by (eexists; vm_compute; reflexivity).
  destruct H as [w' H]. exists w'. split; [exact H|].
  destruct (accrue_interest_frame 31556953 year_old_world w' true H)
    as (Hclock & _ & _ & _ & _ & _ & _ & Hchain).
  split; [exact Hclock|exact Hchain].
Defined.


Lemma token_call_spares_others_witness :
  "wallet_2" <> "wallet_1"
  /\ balance (MockSbtcToken.ft_balances sample_token) "wallet_2"
     <= balance
          (MockSbtcToken.ft_balances
             (snd (MockSbtcToken.token_execute "wallet_1"
                     (MockSbtcToken.Transfer 25 "wallet_1" "wallet_2")
                     sample_token)))
          "wallet_2".
Proof.
  split; [discriminate|].
  apply (token_call_spares_others "wallet_1" "wallet_2"
           (MockSbtcToken.Transfer 25 "wallet_1" "wallet_2") sample_token).
  discriminate.
Defined.

Lemma token_admin_rights_witness :
  ("deployer" = MockSbtcToken.token_admin sample_token
   /\ exists amount recipient,
        MockSbtcToken.Mint 10 "wallet_1" = MockSbtcToken.Mint amount recipient
        /\ MockSbtcToken.ft_supply
             (snd (MockSbtcToken.token_execute "deployer"
                     (MockSbtcToken.Mint 10 "wallet_1") sample_token))
           = MockSbtcToken.ft_supply sample_token + amount)
  /\ "deployer" = MockSbtcToken.token_admin sample_token
  /\ MockSbtcToken.SetTokenAdmin "wallet_1"
     = MockSbtcToken.SetTokenAdmin
         (MockSbtcToken.token_admin
            (snd (MockSbtcToken.token_execute "deployer"
                    (MockSbtcToken.SetTokenAdmin "wallet_1") sample_token))).
Proof.
  split.
  - apply (proj1 (token_admin_rights "deployer"
                    (MockSbtcToken.Mint 10 "wallet_1") sample_token)).
    evaluate.
  - apply (proj2 (token_admin_rights "deployer"
                    (MockSbtcToken.SetTokenAdmin "wallet_1") sample_token)).
    evaluate.
Defined.

Lemma token_refuses_strangers_witness :
  "wallet_1" <> MockSbtcToken.token_admin sample_token
  /\ MockSbtcToken.token_execute "wallet_1"
       (MockSbtcToken.Mint 10 "wallet_1") sample_token
     = (Failure MockSbtcToken.ERR_UNAUTHORIZED, sample_token)
  /\ MockSbtcToken.token_execute "wallet_2"
       (MockSbtcToken.Burn 1 "wallet_1") sample_token
     = (Failure MockSbtcToken.ERR_UNAUTHORIZED, sample_token).
Proof.
  split; [evaluate|]. split.
  - apply (token_refuses_strangers "wallet_1"
             (MockSbtcToken.Mint 10 "wallet_1") sample_token).
    evaluate.
  - apply (token_refuses_strangers "wallet_2"
             (MockSbtcToken.Burn 1 "wallet_1") sample_token).
    evaluate.
Defined.

Lemma mint_burn_round_trip_witness :
  MockSbtcToken.token_execute "deployer" (MockSbtcToken.Mint 10 "wallet_1")
    sample_token
  = (Success true,
     snd (MockSbtcToken.token_execute "deployer"
            (MockSbtcToken.Mint 10 "wallet_1") sample_token))
  /\ exists t2,
       MockSbtcToken.token_execute "wallet_1"
         (MockSbtcToken.Burn 10 "wallet_1")
         (snd (MockSbtcToken.token_execute "deployer"
                 (MockSbtcToken.Mint 10 "wallet_1") sample_token))
       = (Success true, t2)
       /\ MockSbtcToken.ft_supply t2 = MockSbtcToken.ft_supply sample_token
       /\ MockSbtcToken.get_balance "wallet_1" t2
          = MockSbtcToken.get_balance "wallet_1" sample_token.
Proof.
  assert (H : MockSbtcToken.token_execute "deployer"
                (MockSbtcToken.Mint 10 "wallet_1") sample_token
              = (Success true,
                 snd (MockSbtcToken.token_execute "deployer"
                        (MockSbtcToken.Mint 10 "wallet_1") sample_token)))
    by evaluate.
  split; [exact H|].
  destruct (mint_burn_round_trip "deployer" "wallet_1" 10 sample_token _ true H)
    as (t2 & Hrun & Hsupply & _ & Hbalance).
  exists t2. split; [exact Hrun|]. split; [exact Hsupply|apply Hbalance].
Defined.

Lemma pool_transfer_is_token_transfer_witness :
  token_sound sample_token
  /\ MockSbtc.transfer "wallet_1" 25 "wallet_1" "wallet_2"
       (seen_by_pool sample_token funded_world)
     = Ok true
         (seen_by_pool
            (snd (MockSbtcToken.transfer "wallet_1" 25 "wallet_1" "wallet_2"
                    sample_token))
            funded_world).
Proof.
  assert (Hsound : token_sound sample_token) by (split; evaluate).
  split; [exact Hsound|].
  pose proof (pool_transfer_is_token_transfer "wallet_1" "wallet_1"
                "wallet_2" 25 sample_token funded_world Hsound) as H.
  assert (E : MockSbtcToken.transfer "wallet_1" 25 "wallet_1" "wallet_2"
                sample_token
              = (Success true,
                 snd (MockSbtcToken.transfer "wallet_1" 25 "wallet_1"
                        "wallet_2" sample_token)))
    by evaluate.
  remember (MockSbtcToken.transfer "wallet_1" 25 "wallet_1" "wallet_2"
              sample_token) as r eqn:Er in *.
  clear Er. destruct r as [[v| |] t']; try discriminate E.
  injection E as ->. exact H.
Defined.

Lemma parse_format_round_trip_witness :
  (0 < 1500000)%Z
  /\ StxUtils.formatMicrostxToStx 1500000 = "1.5"
  /\ StxUtils.parseStxToMicrostx (StxUtils.formatMicrostxToStx 1500000)
     = Some 1500000%Z.
Proof.
  split; [reflexivity|]. split; [evaluate|].
  apply (proj1 (parse_format_round_trip 1500000 eq_refl)).
Defined.



